(** * Text clustering notebook: embedding vs prompting

    A shallow embedding of the code cells of
    [text-clustering-embedding-vs-prompting.ipynb].  The notebook is a
    straight-line script over one global list, [articles]; every cell is
    modelled as a computation in a small state-and-exception monad whose
    state holds that list, the console output, the log of calls made to
    the external collaborators, and the (abstract) state of the outside
    world.  The collaborators themselves (Wikipedia, the OpenAI
    endpoints, scikit-learn's KMeans) are not part of the repository and
    are taken as parameters. *)

From Stdlib Require Import Floats ZArith String Ascii.
From stdpp Require Import base option list pretty.

Set Warnings "-inexact-float".
Local Open Scope Z_scope.

(** ** Python data *)

(** A Python [str] is a sequence of Unicode code points; slicing and
    concatenation work on code points, not on bytes. *)
Definition char := N.
Definition str := list char.

(** An ASCII literal of the source as a [str]. *)
Definition lit (s : string) : str := N_of_ascii <$> list_ascii_of_string s.

(** The code points of a literal, spelled out with the library's
    conversions; used where a statement quotes the source text. *)
Abbreviation chars s := (N_of_ascii <$> list_ascii_of_string s) (only parsing).

(** [s[:n]] for a sequence [s]: a negative [n] counts from the end. *)
Definition slice_to {A : Type} (s : list A) (n : Z) : list A :=
  if n <? 0 then take (Z.to_nat (Z.of_nat (length s) + n)) s
  else take (Z.to_nat n) s.

(** [sep.join(parts)]. *)
Fixpoint join (sep : str) (parts : list str) : str :=
  match parts with
  | [] => []
  | [p] => p
  | p :: rest => p ++ sep ++ join sep rest
  end.

(** [str(n)] for a non-negative [int]. *)
Definition str_of_nat (n : nat) : str := lit (pretty n).

(** The dictionaries of the global [articles] list.  Cell 2 creates them
    with the keys ["title"] and ["text"]; cells 4 and 5 add ["embedding"]
    and ["summary"].  A key that has not been added yet is [None], and
    reading it raises [KeyError]. *)
Record article := Article {
  title : str;
  text : str;
  embedding : option (list float);
  summary : option str
}.

Definition set_embedding (v : list float) (a : article) : article :=
  {| title := title a; text := text a; embedding := Some v; summary := summary a |}.

Definition set_summary (s : str) (a : article) : article :=
  {| title := title a; text := text a; embedding := embedding a; summary := Some s |}.

(** ** Requests and responses of the external services *)

Record embedding_request := EmbeddingRequest {
  emb_engine : str;
  emb_input : list str
}.

Record embedding_datum := EmbeddingDatum { datum_embedding : list float }.

(** [response["data"]] *)
Record embedding_response := EmbeddingResponse { data : list embedding_datum }.

Record chat_message := ChatMessage { role : str; content : str }.

Record chat_request := ChatRequest {
  engine : str;
  messages : list chat_message;
  temperature : float;
  max_tokens : option Z
}.

Record chat_choice := ChatChoice { message : chat_message }.

(** [completion['choices']] *)
Record chat_completion := ChatCompletion { choices : list chat_choice }.

(** ** Exceptions and results *)

Inductive exn :=
| KeyError (key : string)
| IndexError
| External (what : str).   (* raised inside a collaborator *)

Inductive result (A : Type) :=
| Ok (a : A)
| Raise (e : exn).
Arguments Ok {A} a.
Arguments Raise {A} e.

(** [np.array(rows)] for rows of floats (NumPy 1.24 and later): the rows
    as a two-dimensional array, or [ValueError] when the rows do not all
    have the same length.  The array is kept as its list of rows. *)
Definition np_array (rows : list (list float)) : result (list (list float)) :=
  match rows with
  | [] => Ok []
  | r :: rest =>
      if forallb (fun r' => (length r' =? length r)%nat) rest then Ok rows
      else Raise (External (lit "ValueError"))
  end.

(** Calls made to the outside world, in the order they are made. *)
Inductive call :=
| FetchCall
| EmbeddingCall (r : embedding_request)
| ChatCall (r : chat_request)
| FitCall (n_clusters random_state n_init : Z) (X : list (list float)).

(** ** The notebook state and its monad *)

Section Notebook.

Context {World : Type}.

Record state := State {
  world : World;
  articles : list article;
  stdout : list str;          (* one entry per [print] *)
  calls : list call
}.

Definition M (A : Type) : Type := state -> result A * state.

Definition ret {A} (a : A) : M A := fun s => (Ok a, s).

Definition raise {A} (e : exn) : M A := fun s => (Raise e, s).

Definition bind {A B} (m : M A) (k : A -> M B) : M B :=
  fun s =>
    match m s with
    | (Ok a, s') => k a s'
    | (Raise e, s') => (Raise e, s')
    end.

Notation "x <- m ;; k" := (bind m (fun x => k))
  (at level 100, m at next level, right associativity).
Notation "m ;;; k" := (bind m (fun _ => k))
  (at level 100, right associativity).

(** [print(line)] *)
Definition print (line : str) : M unit :=
  fun s => (Ok tt, {| world := world s; articles := articles s;
                      stdout := stdout s ++ [line]; calls := calls s |}).

(** A call to a collaborator: logged, then answered by the world. *)
Definition external {A} (c : call) (f : World -> result A * World) : M A :=
  fun s =>
    let '(r, w) := f (world s) in
    (r, {| world := w; articles := articles s;
           stdout := stdout s; calls := calls s ++ [c] |}).

(** [l[i]] *)
Definition getitem {A} (l : list A) (i : nat) : M A :=
  match l !! i with
  | Some x => ret x
  | None => raise IndexError
  end.

(** [d[key]] for a key that may not have been set. *)
Definition getkey {A} (key : string) (field : option A) : M A :=
  match field with
  | Some x => ret x
  | None => raise (KeyError key)
  end.

(** [articles.append(a)] *)
Definition append_article (a : article) : M unit :=
  fun s => (Ok tt, {| world := world s; articles := articles s ++ [a];
                      stdout := stdout s; calls := calls s |}).

(** In-place update of the dictionary [articles[i]]. *)
Definition update_article (i : nat) (f : article -> article) : M unit :=
  fun s => (Ok tt, {| world := world s; articles := alter f i (articles s);
                      stdout := stdout s; calls := calls s |}).

Fixpoint for_range (idx : list nat) (body : nat -> M unit) : M unit :=
  match idx with
  | [] => ret tt
  | i :: rest => body i ;;; for_range rest body
  end.

(** [for article in articles: body]; the body sees the dictionary as it
    is when its turn comes, and never changes the length of the list. *)
Definition for_article (body : nat -> article -> M unit) : M unit :=
  fun s =>
    for_range (seq 0 (length (articles s)))
      (fun i s' =>
         match articles s' !! i with
         | Some a => body i a s'
         | None => (Ok tt, s')
         end) s.

(** ** The collaborators *)

Variable get_random_wikipedia_article_title : World -> result (str * str) * World.
Variable Embedding_create : embedding_request -> World -> result embedding_response * World.
Variable ChatCompletion_create : chat_request -> World -> result chat_completion * World.

(** ** Cell 2: fetch 23 random articles *)

Definition fetch_article (_ : nat) : M unit :=
  p <- external FetchCall get_random_wikipedia_article_title ;;
  append_article {| title := p.1; text := p.2; embedding := None; summary := None |}.

Definition cell2 : M unit :=
  fun s =>
    for_range (seq 0 23) fetch_article
      {| world := world s; articles := []; stdout := stdout s; calls := calls s |}.

(** ** Cell 4: one embedding per article *)

Definition embedding_request_of (a : article) : embedding_request :=
  {| emb_engine := lit "text-embedding-ada-002";
     emb_input := [slice_to (text a) 5555] |}.

Definition embed_article (i : nat) (a : article) : M unit :=
  let req := embedding_request_of a in
  response <- external (EmbeddingCall req) (Embedding_create req) ;;
  d <- getitem (data response) 0 ;;
  update_article i (set_embedding (datum_embedding d)).

Definition cell4 : M unit := for_article embed_article.

(** ** Cell 5: one summary per article *)

Definition summary_system_prompt : str :=
  lit "You are an expert encyclopedia editor. "
  ++ lit "Your task is to read an article from Wikipedia and write a short summary of it. "
  ++ lit "Your response should always be a single paragraph of text with the article summary, "
  ++ lit "and should never include any titles, headings or markup.".

Definition nl : str := [10%N].

Definition summary_user_prompt (a : article) : str :=
  lit "Read the following article and write a short summary of it."
  ++ nl ++ nl ++ lit "Title:" ++ nl ++ title a ++ nl ++ lit "Article:" ++ nl
  ++ slice_to (text a) 9999.

Definition summary_request_of (a : article) : chat_request :=
  {| engine := lit "gpt-35-turbo-16k";
     messages := [ {| role := lit "system"; content := summary_system_prompt |};
                   {| role := lit "user"; content := summary_user_prompt a |} ];
     temperature := 0.3%float;
     max_tokens := Some 250 |}.

Definition summarize_article (i : nat) (a : article) : M unit :=
  let req := summary_request_of a in
  completion <- external (ChatCall req) (ChatCompletion_create req) ;;
  c <- getitem (choices completion) 0 ;;
  update_article i (set_summary (content (message c))).

Definition cell5 : M unit := for_article summarize_article.

(** ** Cell 6: K-Means over the embeddings *)

(** scikit-learn's estimator: [KMeans(n_clusters, random_state, n_init).fit(X)]
    gives a fitted model or raises; [kmeans.predict(X)] gives one label per
    row of [X] and depends on the fitted model and on [X] only. *)
Context {kmeans : Type}.
Variable KMeans_fit : Z -> Z -> Z -> list (list float) -> World -> result kmeans * World.
Variable predict : kmeans -> list (list float) -> result (list Z).

Definition lift {A} (r : result A) : M A := fun s => (r, s).

Definition get_articles : M (list article) := fun s => (Ok (articles s), s).

Fixpoint mapM {A B} (f : A -> M B) (l : list A) : M (list B) :=
  match l with
  | [] => ret []
  | x :: rest => y <- f x ;; ys <- mapM f rest ;; ret (y :: ys)
  end.

(** [kmeans.predict([article["embedding"]])[0] == cluster], then the print. *)
Definition print_if_member (m : kmeans) (cluster : nat) (_ : nat) (a : article) : M unit :=
  e <- getkey "embedding" (embedding a) ;;
  labels <- lift (predict m [e]) ;;
  l <- getitem labels 0 ;;
  if l =? Z.of_nat cluster then print (lit " - " ++ title a) else ret tt.

Definition print_cluster (m : kmeans) (cluster : nat) : M unit :=
  print (lit "Cluster " ++ str_of_nat (cluster + 1)) ;;;
  for_article (print_if_member m cluster) ;;;
  print [].

(** The cell for a cluster count [K]; the notebook has [K = 7] in both
    places where the count occurs.  The embeddings are read from the
    dictionaries, made into an array, and only then given to the fit. *)
Definition kmeans_cell (K : nat) : M unit :=
  arts <- get_articles ;;
  rows <- mapM (fun a => getkey "embedding" (embedding a)) arts ;;
  embeddings <- lift (np_array rows) ;;
  m <- external (FitCall (Z.of_nat K) 0 10 embeddings)
                (KMeans_fit (Z.of_nat K) 0 10 embeddings) ;;
  for_range (seq 0 K) (print_cluster m).

Definition cell6 : M unit := kmeans_cell 7.

(** The groups that cell 6 prints: the articles whose predicted label is
    the cluster's number, in the order of [articles]. *)
Definition label_of (m : kmeans) (a : article) : option Z :=
  match embedding a with
  | Some e => match predict m [e] with
              | Ok (l :: _) => Some l
              | _ => None
              end
  | None => None
  end.

Definition cluster_members (m : kmeans) (cluster : nat) (arts : list article) : list article :=
  filter (fun a => label_of m a = Some (Z.of_nat cluster)) arts.

Definition clusters (m : kmeans) (K : nat) (arts : list article) : list (list article) :=
  (fun c => cluster_members m c arts) <$> seq 0 K.

Definition render_cluster (cluster : nat) (members : list article) : list str :=
  [lit "Cluster " ++ str_of_nat (cluster + 1)]
  ++ ((fun a => lit " - " ++ title a) <$> members)
  ++ [[]].

Definition render_clusters (groups : list (list article)) : list str :=
  concat (imap render_cluster groups).

(** ** Cell 9: one prompt to GPT-4 with all titles and summaries *)

Definition clustering_system_prompt : str :=
  lit "You are an expert encyclopedia editor. "
  ++ lit "Your task is to read through the summaries of Wikipedia articles, "
  ++ lit "and assign them to one of seven clusters. ".

Definition clustering_format : str :=
  lit "Cluster N: Cluster Title" ++ nl
  ++ lit " - First Article Title" ++ nl
  ++ lit " - Second Article Title" ++ nl.

Definition clustering_instructions : str :=
  lit "The following are titles and summaries of Wikipedia articles. "
  ++ lit "Read the summaries. For each article, come up with a few tags that would "
  ++ lit "describe the cluster it belongs to. "
  ++ lit "Then assign the article to one of exactly 7 clusters (from Cluster 1 to Cluster 7), "
  ++ lit "based on their topics. It is very important that you only assign each article to one cluster. "
  ++ lit "You must have exactly 7 clusters, and each cluster must have at least two articles assigned to it. "
  ++ lit "Your final output should follow the format:" ++ nl
  ++ clustering_format
  ++ lit "etc..." ++ nl ++ nl ++ nl.

(** [f"Title: {article['title']}\nSummary: {article['summary']}\n\n"] *)
Definition clustering_entry (ttl smr : str) : str :=
  lit "Title: " ++ ttl ++ nl ++ lit "Summary: " ++ smr ++ nl ++ nl.

Definition clustering_request_of (entries : list str) : chat_request :=
  {| engine := lit "gpt-4";
     messages := [ {| role := lit "system"; content := clustering_system_prompt |};
                   {| role := lit "user";
                      content := clustering_instructions ++ join nl entries |} ];
     temperature := 0.1%float;
     max_tokens := None |}.

Definition entry_of (a : article) : M str :=
  smr <- getkey "summary" (summary a) ;;
  ret (clustering_entry (title a) smr).

(** The cell's value is the global [clusters] that it binds and prints. *)
Definition cell9 : M str :=
  arts <- get_articles ;;
  entries <- mapM entry_of arts ;;
  let req := clustering_request_of entries in
  completion <- external (ChatCall req) (ChatCompletion_create req) ;;
  c <- getitem (choices completion) 0 ;;
  let clusters := content (message c) in
  print clusters ;;;
  ret clusters.

(** Running the cells top to bottom. *)
Definition notebook : M str :=
  cell2 ;;; cell4 ;;; cell5 ;;; cell6 ;;; cell9.

End Notebook.

Arguments state World : clear implicits.
Arguments M World A : clear implicits.

(** ** Auxiliary definitions for the proofs *)

Definition with_articles {World} (l : list article) (s : state World) : state World :=
  {| world := world s; articles := l; stdout := stdout s; calls := calls s |}.

(** The result of one [for article in articles] loop whose body computes
    a value from the article with [act] and stores it with [f]: [done]
    holds the dictionaries already updated, [todo] those still to visit.
    The first exception ends the loop with [todo] as it was. *)
Fixpoint annotate_loop {World V} (act : article -> M World V)
    (f : V -> article -> article) (done todo : list article)
    (s : state World) : result unit * state World :=
  match todo with
  | [] => (Ok tt, with_articles done s)
  | a :: rest =>
      match act a s with
      | (Ok v, s') => annotate_loop act f (done ++ [f v a]) rest s'
      | (Raise e, s') => (Raise e, with_articles (done ++ a :: rest) s')
      end
  end.

(** The loop body that [annotate_loop] describes. *)
Definition annotate {World V} (act : article -> M World V)
    (f : V -> article -> article) (i : nat) (a : article) : M World unit :=
  bind (act a) (fun v => update_article i (f v)).

(** The part of [embed_article] before the assignment to [article["embedding"]]. *)
Definition embedding_of {World}
    (Embedding_create : embedding_request -> World -> result embedding_response * World)
    (a : article) : M World (list float) :=
  bind (external (EmbeddingCall (embedding_request_of a))
                 (Embedding_create (embedding_request_of a)))
       (fun response =>
          bind (getitem (data response) 0) (fun d => ret (datum_embedding d))).

(** The part of [summarize_article] before the assignment to [article["summary"]]. *)
Definition summary_of {World}
    (ChatCompletion_create : chat_request -> World -> result chat_completion * World)
    (a : article) : M World str :=
  bind (external (ChatCall (summary_request_of a))
                 (ChatCompletion_create (summary_request_of a)))
       (fun completion =>
          bind (getitem (choices completion) 0) (fun c => ret (content (message c)))).

(** A read-only loop over a list of articles, numbered from [k]. *)
Fixpoint iter_articles {World} (body : nat -> article -> M World unit)
    (k : nat) (todo : list article) : M World unit :=
  match todo with
  | [] => ret tt
  | a :: rest => bind (body k a) (fun _ => iter_articles body (S k) rest)
  end.

(** The state after printing the lines [ls]. *)
Definition printed {World} (ls : list str) (s : state World) : state World :=
  {| world := world s; articles := articles s; stdout := stdout s ++ ls; calls := calls s |}.

(** A computation that leaves the [articles] list as it found it. *)
Definition keeps_articles {World A} (m : M World A) : Prop :=
  forall s, articles (m s).2 = articles s.

(** The state after a call [c] that left the world in [w]. *)
Definition called {World} (c : call) (w : World) (s : state World) : state World :=
  {| world := w; articles := articles s; stdout := stdout s; calls := calls s ++ [c] |}.

(** A computation that leaves one component of the state as it found it. *)
Definition keeps {World A B} (proj : state World -> B) (m : M World A) : Prop :=
  forall s, proj (m s).2 = proj s.

(** Rows that all have the same number of entries. *)
Definition same_length (rows : list (list float)) : Prop :=
  forall r r', r ∈ rows -> r' ∈ rows -> length r = length r'.


(** The article has a predicted label, and it is the number of one of
    the [K] clusters that cell 6 goes through. *)
Definition in_range {kmeans} (predict : kmeans -> list (list float) -> result (list Z))
    (m : kmeans) (K : nat) (a : article) : bool :=
  match label_of predict m a with
  | Some l => (0 <=? l) && (l <? Z.of_nat K)
  | None => false
  end.

(** Two dictionaries for the same document: same title and same text. *)
Definition same_document (a a' : article) : Prop :=
  title a' = title a /\ text a' = text a.

(** Python values, to compare what cell 9 binds to [clusters] with a
    parsed structure. *)
Unset Elimination Schemes.
Inductive pyvalue :=
| PyStr (s : str)
| PyInt (n : Z)
| PyList (l : list pyvalue)
| PyDict (items : list (pyvalue * pyvalue)).
Set Elimination Schemes.

Definition value_of_result (r : result str) : option pyvalue :=
  match r with
  | Ok s => Some (PyStr s)
  | Raise _ => None
  end.

(** [needle in haystack] for strings. *)
Definition occurs_in (needle haystack : str) : Prop :=
  exists pre post, haystack = pre ++ needle ++ post.

(** ** Concrete collaborators and inputs *)

Module Sample.

Definition doc (ttl txt : string) (e : list float) (smr : string) : article :=
  {| title := lit ttl; text := lit txt; embedding := Some e; summary := Some (lit smr) |}.

Definition doc_a : article := doc "Doc A" "Alpha is a letter." [0.25%float; 1%float] "A letter.".
Definition doc_b : article := doc "Doc B" "Beta is a letter." [0.5%float; 1%float] "Another letter.".
Definition doc_c : article := doc "Doc C" "Rome is a city." [4%float; 2%float] "A city.".

(** A document whose embedding has one coordinate where the others have two. *)
Definition doc_short : article := doc "Doc S" "Short." [1%float] "Short.".

Definition raw (ttl txt : string) : article :=
  {| title := lit ttl; text := lit txt; embedding := None; summary := None |}.

(** The world is a counter of the calls answered so far. *)
Definition initial (arts : list article) : state nat :=
  {| world := 0%nat; articles := arts; stdout := []; calls := [] |}.

Definition embed_ok (r : embedding_request) (w : nat) : result embedding_response * nat :=
  (Ok {| data := [ {| datum_embedding := [1%float] |} ] |}, S w).

(** An embedding endpoint whose second call fails. *)
Definition embed_flaky (r : embedding_request) (w : nat) : result embedding_response * nat :=
  if (w =? 1)%nat then (Raise (External (lit "RateLimitError")), S w)
  else embed_ok r w.

Definition reply (txt : str) : chat_completion :=
  {| choices := [ {| message := {| role := lit "assistant"; content := txt |} |} ] |}.

Definition chat_says (txt : str) (r : chat_request) (w : nat) : result chat_completion * nat :=
  (Ok (reply txt), S w).

(** A chat endpoint whose second call fails. *)
Definition chat_flaky (r : chat_request) (w : nat) : result chat_completion * nat :=
  if (w =? 1)%nat then (Raise (External (lit "RateLimitError")), S w)
  else chat_says (lit "Summary.") r w.

(** An embedding endpoint that answers without any datum. *)
Definition embed_empty (r : embedding_request) (w : nat) : result embedding_response * nat :=
  (Ok {| data := [] |}, S w).

(** A chat endpoint that answers without any choice. *)
Definition chat_empty (r : chat_request) (w : nat) : result chat_completion * nat :=
  (Ok {| choices := [] |}, S w).

(** A page source that fails on its third call. *)
Definition fetch_flaky (w : nat) : result (str * str) * nat :=
  if (w =? 2)%nat then (Raise (External (lit "ConnectionError")), S w)
  else (Ok (lit "Doc", lit "Text"), S w).

(** An estimator that rejects its input. *)
Definition fit_fails (K seed n_init : Z) (X : list (list float)) (w : nat)
    : result float * nat :=
  (Raise (External (lit "ValueError")), S w).

(** A fitted model is a threshold on the first coordinate. *)
Definition threshold_fit (K seed n_init : Z) (X : list (list float)) (w : nat)
    : result float * nat :=
  (Ok 2%float, S w).

Definition threshold_predict (m : float) (X : list (list float)) : result (list Z) :=
  Ok ((fun e => match e with
                | x :: _ => if PrimFloat.ltb x m then 0 else 1
                | [] => 0
                end) <$> X).

(** The sample response of the specification's parser example. *)
Definition response : str :=
  lit "Cluster 1: Test" ++ nl ++ lit " - Doc A" ++ nl ++ lit " - Doc B" ++ nl ++ nl
  ++ lit "Cluster 2: Other" ++ nl ++ lit " - Doc C" ++ nl.

(** The structure that the specification expects a parser to build from
    [response]. *)
Definition expected_structure : pyvalue :=
  PyDict
    [ (PyInt 1, PyDict [ (PyStr (lit "label"), PyStr (lit "Test"));
                         (PyStr (lit "members"),
                          PyList [PyStr (lit "Doc A"); PyStr (lit "Doc B")]) ]);
      (PyInt 2, PyDict [ (PyStr (lit "label"), PyStr (lit "Other"));
                         (PyStr (lit "members"), PyList [PyStr (lit "Doc C")]) ]) ].

(** A response naming a title that is not among the input titles. *)
Definition response_unknown_title : str :=
  lit "Cluster 1: Test" ++ nl ++ lit " - Doc A" ++ nl ++ lit " - Doc Z" ++ nl.


End Sample.


(** * Properties *)

(** ** Slicing *)



(** ** The monad *)

Section MonadFacts.

Context {World : Type}.

Lemma with_articles_id (s : state World) : with_articles (articles s) s = s.
Proof. destruct s; reflexivity. Qed.

End MonadFacts.

(** ** Loops that store one computed value per article *)

Section AnnotateLoop.

Context {World V : Type}.
Variable act : article -> M World V.
Variable f : V -> article -> article.
Variable c : article -> call.

(** [act] neither reads nor writes the [articles] list ... *)
Hypothesis act_frame : forall a l s,
  act a (with_articles l s) = ((act a s).1, with_articles l (act a s).2).
(** ... and makes exactly one call. *)
Hypothesis act_calls : forall a s, calls (act a s).2 = calls s ++ [c a].

Lemma act_articles a s : articles (act a s).2 = articles s.
Proof.
  pose proof (act_frame a (articles s) s) as H.
  rewrite with_articles_id in H.
  apply (f_equal snd) in H. simpl in H.
  rewrite H at 1. reflexivity.
Qed.

Lemma annotate_loop_with_articles done todo l s :
  annotate_loop act f done todo (with_articles l s) = annotate_loop act f done todo s.
Proof.
  revert done s. induction todo as [| a rest IH]; intros done s; simpl.
  - reflexivity.
  - rewrite act_frame. simpl.
    destruct (act a s) as [[v | e] s'] eqn:Hact; simpl.
    + apply IH.
    + reflexivity.
Qed.

Lemma for_range_annotate todo : forall done s,
  articles s = done ++ todo ->
  for_range (seq (length done) (length todo))
    (fun i s' =>
       match articles s' !! i with
       | Some a => annotate act f i a s'
       | None => (Ok tt, s')
       end) s
  = annotate_loop act f done todo s.
Proof.
  induction todo as [| a rest IH]; intros done s Hs; simpl.
  - rewrite app_nil_r in Hs. rewrite <- Hs. rewrite with_articles_id. reflexivity.
  - unfold bind at 1.
    assert (Hlook : articles s !! length done = Some a).
    { rewrite Hs. rewrite lookup_app_r by lia.
      replace (length done - length done)%nat with 0%nat by lia. reflexivity. }
    rewrite Hlook. unfold annotate, bind.
    pose proof (act_articles a s) as Harts.
    destruct (act a s) as [[v | e] s'] eqn:Hact; simpl in *.
    + unfold update_article at 1.
      set (s'' := State _ _ _ _).
      specialize (IH (done ++ [f v a]) s'').
      rewrite length_app in IH. simpl in IH.
      replace (length done + 1)%nat with (S (length done)) in IH by lia.
      etransitivity; [apply IH |].
      * subst s''. simpl. rewrite Harts, Hs.
        rewrite <- (Nat.add_0_r (length done)).
        rewrite alter_app_r. simpl. rewrite <- app_assoc. reflexivity.
      * change s'' with (with_articles (alter (f v) (length done) (articles s')) s').
        apply annotate_loop_with_articles.
    + rewrite <- Hs, <- Harts. rewrite with_articles_id. reflexivity.
Qed.

Lemma for_article_annotate s :
  for_article (annotate act f) s = annotate_loop act f [] (articles s) s.
Proof.
  unfold for_article. apply (for_range_annotate (articles s) [] s). reflexivity.
Qed.

(** A loop over [l1 ++ l2] is the loop over [l1] followed, when that one
    succeeds, by the loop over [l2]. *)
Lemma annotate_loop_app l1 l2 : forall done s,
  annotate_loop act f done (l1 ++ l2) s =
  match annotate_loop act f done l1 s with
  | (Ok _, s1) => annotate_loop act f (articles s1) l2 s1
  | (Raise e, s1) => (Raise e, with_articles (articles s1 ++ l2) s1)
  end.
Proof.
  induction l1 as [| a rest IH]; intros done s; simpl.
  - symmetry. apply annotate_loop_with_articles.
  - destruct (act a s) as [[v | e] s'] eqn:Hact.
    + apply IH.
    + simpl. rewrite <- app_assoc. reflexivity.
Qed.


(** The list after the loop: [done], then every article of [todo] either
    as it was or with the computed value stored. *)
Lemma annotate_loop_articles todo : forall done s,
  exists todo',
    articles (annotate_loop act f done todo s).2 = done ++ todo' /\
    Forall2 (fun a a' => a' = a \/ exists v, a' = f v a) todo todo'.
Proof.
  induction todo as [| a rest IH]; intros done s; simpl.
  - exists []. simpl. split; [symmetry; apply app_nil_r | constructor].
  - destruct (act a s) as [[v | e] s'] eqn:Hact; simpl.
    + destruct (IH (done ++ [f v a]) s') as (todo' & Heq & Hall).
      exists (f v a :: todo'). split.
      * rewrite Heq, <- app_assoc. reflexivity.
      * constructor; [right; eauto | exact Hall].
    + exists (a :: rest). split; [reflexivity |].
      apply Forall2_same_length_lookup_2; [reflexivity |].
      intros i x y Hx Hy. left. congruence.
Qed.

End AnnotateLoop.

(** ** Cells 4 and 5 as annotating loops *)

Section Loops.

Context {World : Type}.
Variable Embedding_create : embedding_request -> World -> result embedding_response * World.
Variable ChatCompletion_create : chat_request -> World -> result chat_completion * World.

Lemma for_range_ext (b1 b2 : nat -> M World unit) idx :
  (forall i s, b1 i s = b2 i s) ->
  forall s, for_range idx b1 s = for_range idx b2 s.
Proof.
  intros Hext. induction idx as [| i rest IH]; intros s; simpl.
  - reflexivity.
  - unfold bind. rewrite Hext.
    destruct (b2 i s) as [[[] | e] s']; [apply IH | reflexivity].
Qed.

Lemma for_article_ext (b1 b2 : nat -> article -> M World unit) :
  (forall i a s, b1 i a s = b2 i a s) ->
  forall s, for_article b1 s = for_article b2 s.
Proof.
  intros Hext s. unfold for_article. apply for_range_ext.
  intros i s'. destruct (articles s' !! i); [apply Hext | reflexivity].
Qed.

Lemma embed_article_annotate i a s :
  embed_article Embedding_create i a s
  = annotate (embedding_of Embedding_create) set_embedding i a s.
Proof.
  unfold embed_article, annotate, embedding_of, bind, external, getitem.
  destruct (Embedding_create _ _) as [[response | e] w]; [| reflexivity].
  destruct (data response !! 0%nat); reflexivity.
Qed.

Lemma summarize_article_annotate i a s :
  summarize_article ChatCompletion_create i a s
  = annotate (summary_of ChatCompletion_create) set_summary i a s.
Proof.
  unfold summarize_article, annotate, summary_of, bind, external, getitem.
  destruct (ChatCompletion_create _ _) as [[completion | e] w]; [| reflexivity].
  destruct (choices completion !! 0%nat); reflexivity.
Qed.

Lemma embedding_of_frame a l s :
  embedding_of Embedding_create a (with_articles l s)
  = ((embedding_of Embedding_create a s).1,
     with_articles l (embedding_of Embedding_create a s).2).
Proof.
  unfold embedding_of, bind, external, getitem. simpl.
  destruct (Embedding_create _ _) as [[response | e] w]; [| reflexivity].
  destruct (data response !! 0%nat); reflexivity.
Qed.

Lemma embedding_of_calls a s :
  calls (embedding_of Embedding_create a s).2
  = calls s ++ [EmbeddingCall (embedding_request_of a)].
Proof.
  unfold embedding_of, bind, external, getitem.
  destruct (Embedding_create _ _) as [[response | e] w]; [| reflexivity].
  destruct (data response !! 0%nat); reflexivity.
Qed.

Lemma summary_of_frame a l s :
  summary_of ChatCompletion_create a (with_articles l s)
  = ((summary_of ChatCompletion_create a s).1,
     with_articles l (summary_of ChatCompletion_create a s).2).
Proof.
  unfold summary_of, bind, external, getitem. simpl.
  destruct (ChatCompletion_create _ _) as [[completion | e] w]; [| reflexivity].
  destruct (choices completion !! 0%nat); reflexivity.
Qed.

Lemma summary_of_calls a s :
  calls (summary_of ChatCompletion_create a s).2
  = calls s ++ [ChatCall (summary_request_of a)].
Proof.
  unfold summary_of, bind, external, getitem.
  destruct (ChatCompletion_create _ _) as [[completion | e] w]; [| reflexivity].
  destruct (choices completion !! 0%nat); reflexivity.
Qed.

Lemma cell4_loop s :
  cell4 Embedding_create s
  = annotate_loop (embedding_of Embedding_create) set_embedding [] (articles s) s.
Proof.
  unfold cell4.
  rewrite (for_article_ext _ _ embed_article_annotate).
  apply for_article_annotate. apply embedding_of_frame.
Qed.

Lemma cell5_loop s :
  cell5 ChatCompletion_create s
  = annotate_loop (summary_of ChatCompletion_create) set_summary [] (articles s) s.
Proof.
  unfold cell5.
  rewrite (for_article_ext _ _ summarize_article_annotate).
  apply for_article_annotate. apply summary_of_frame.
Qed.

End Loops.

(** ** The claims about cells 4 and 5 *)

Section Batch.

Context {World : Type}.
Variable Embedding_create : embedding_request -> World -> result embedding_response * World.
Variable ChatCompletion_create : chat_request -> World -> result chat_completion * World.


(** C9.  One failing provider call ends the whole loop.  If the loop has
    gone through the articles [pre] and the call for the next article
    [a] raises [e], then the cell raises [e]; [a] and all articles after
    it are left as they were, and no further call is made. *)
Theorem provider_failure_halts_batch (s : state World) pre a post e :
  articles s = pre ++ a :: post ->
  (forall s1 w,
     cell4 Embedding_create (with_articles pre s) = (Ok tt, s1) ->
     Embedding_create (embedding_request_of a) (world s1) = (Raise e, w) ->
     cell4 Embedding_create s
     = (Raise e,
        {| world := w; articles := articles s1 ++ a :: post; stdout := stdout s1;
           calls := calls s1 ++ [EmbeddingCall (embedding_request_of a)] |}))
  /\ (forall s1 w,
        cell5 ChatCompletion_create (with_articles pre s) = (Ok tt, s1) ->
        ChatCompletion_create (summary_request_of a) (world s1) = (Raise e, w) ->
        cell5 ChatCompletion_create s
        = (Raise e,
           {| world := w; articles := articles s1 ++ a :: post; stdout := stdout s1;
              calls := calls s1 ++ [ChatCall (summary_request_of a)] |})).
Proof.
  intros Hs. split; intros s1 w Hpre Hfail.
  - rewrite cell4_loop in Hpre |- *. simpl in Hpre.
    rewrite annotate_loop_with_articles in Hpre by apply embedding_of_frame.
    rewrite Hs. rewrite annotate_loop_app by apply embedding_of_frame.
    rewrite Hpre. simpl.
    unfold embedding_of, bind, external. rewrite Hfail. reflexivity.
  - rewrite cell5_loop in Hpre |- *. simpl in Hpre.
    rewrite annotate_loop_with_articles in Hpre by apply summary_of_frame.
    rewrite Hs. rewrite annotate_loop_app by apply summary_of_frame.
    rewrite Hpre. simpl.
    unfold summary_of, bind, external. rewrite Hfail. reflexivity.
Qed.

End Batch.

(** ** Cell 6 *)

Section KMeansCell.

Context {World kmeans : Type}.
Variable KMeans_fit : Z -> Z -> Z -> list (list float) -> World -> result kmeans * World.
Variable predict : kmeans -> list (list float) -> result (list Z).

Lemma printed_nil (s : state World) : printed [] s = s.
Proof. unfold printed. rewrite app_nil_r. destruct s; reflexivity. Qed.

Lemma printed_printed l1 l2 (s : state World) :
  printed l2 (printed l1 s) = printed (l1 ++ l2) s.
Proof. unfold printed. simpl. rewrite app_assoc. reflexivity. Qed.

Lemma for_range_readonly (body : nat -> article -> M World unit) :
  (forall i a s, articles (body i a s).2 = articles s) ->
  forall todo done s,
    articles s = done ++ todo ->
    for_range (seq (length done) (length todo))
      (fun i s' =>
         match articles s' !! i with
         | Some a => body i a s'
         | None => (Ok tt, s')
         end) s
    = iter_articles body (length done) todo s.
Proof.
  intros Hro. induction todo as [| a rest IH]; intros done s Hs; simpl.
  - reflexivity.
  - unfold bind.
    assert (Hlook : articles s !! length done = Some a).
    { rewrite Hs. rewrite lookup_app_r by lia.
      replace (length done - length done)%nat with 0%nat by lia. reflexivity. }
    rewrite Hlook.
    pose proof (Hro (length done) a s) as Harts.
    destruct (body (length done) a s) as [[[] | e] s'] eqn:Hbody; [| reflexivity].
    simpl in Harts.
    specialize (IH (done ++ [a]) s').
    rewrite length_app in IH. simpl in IH.
    replace (length done + 1)%nat with (S (length done)) in IH by lia.
    apply IH. rewrite Harts, Hs, <- app_assoc. reflexivity.
Qed.

Lemma for_article_readonly (body : nat -> article -> M World unit) :
  (forall i a s, articles (body i a s).2 = articles s) ->
  forall s, for_article body s = iter_articles body 0 (articles s) s.
Proof.
  intros Hro s. unfold for_article.
  apply (for_range_readonly body Hro (articles s) [] s). reflexivity.
Qed.

Lemma print_if_member_articles m cluster i a (s : state World) :
  articles (print_if_member predict m cluster i a s).2 = articles s.
Proof.
  unfold print_if_member, bind, getkey, lift, getitem, print, ret, raise.
  destruct (embedding a) as [e |]; [| reflexivity].
  destruct (predict m [e]) as [[| l ls] | err]; try reflexivity.
  simpl. destruct (l =? Z.of_nat cluster); reflexivity.
Qed.

Lemma print_if_member_labelled m cluster i a l (s : state World) :
  label_of predict m a = Some l ->
  print_if_member predict m cluster i a s
  = (Ok tt, if decide (l = Z.of_nat cluster)
            then printed [lit " - " ++ title a] s else s).
Proof.
  unfold label_of, print_if_member, bind, getkey, lift, getitem, print, ret.
  destruct (embedding a) as [e |]; [| discriminate].
  destruct (predict m [e]) as [[| l' ls] | err]; try discriminate.
  intros [= ->]. simpl.
  destruct (Z.eqb_spec l (Z.of_nat cluster)); destruct (decide _); try lia; reflexivity.
Qed.

Lemma iter_print_members m cluster todo : forall k (s : state World),
  Forall (fun a => is_Some (label_of predict m a)) todo ->
  iter_articles (print_if_member predict m cluster) k todo s
  = (Ok tt, printed ((fun a => lit " - " ++ title a)
                     <$> cluster_members predict m cluster todo) s).
Proof.
  induction todo as [| a rest IH]; intros k s Hall; simpl.
  - rewrite printed_nil. reflexivity.
  - apply Forall_cons in Hall as [[l Hl] Hrest].
    unfold bind. rewrite (print_if_member_labelled _ _ _ _ l) by exact Hl.
    rewrite IH by exact Hrest.
    unfold cluster_members. rewrite filter_cons, Hl.
    destruct (decide (l = Z.of_nat cluster)) as [-> | Hne].
    + rewrite decide_True by reflexivity. rewrite printed_printed. reflexivity.
    + rewrite decide_False by congruence. reflexivity.
Qed.

Lemma print_cluster_run m cluster (s : state World) :
  Forall (fun a => is_Some (label_of predict m a)) (articles s) ->
  print_cluster predict m cluster s
  = (Ok tt, printed (render_cluster cluster
                       (cluster_members predict m cluster (articles s))) s).
Proof.
  intros Hall. unfold print_cluster, bind.
  unfold print at 1.
  rewrite for_article_readonly by apply print_if_member_articles.
  simpl articles. rewrite iter_print_members by exact Hall.
  unfold print, render_cluster, printed. simpl.
  rewrite <- !app_assoc. reflexivity.
Qed.

Lemma for_range_print_clusters m n : forall k (s : state World),
  Forall (fun a => is_Some (label_of predict m a)) (articles s) ->
  for_range (seq k n) (print_cluster predict m) s
  = (Ok tt, printed (concat ((fun c => render_cluster c
                                         (cluster_members predict m c (articles s)))
                             <$> seq k n)) s).
Proof.
  induction n as [| n IH]; intros k s Hall; simpl.
  - rewrite printed_nil. reflexivity.
  - unfold bind. rewrite print_cluster_run by exact Hall.
    rewrite IH by exact Hall. simpl articles.
    rewrite printed_printed. reflexivity.
Qed.

Lemma render_clusters_seq m K arts :
  render_clusters (clusters predict m K arts)
  = concat ((fun c => render_cluster c (cluster_members predict m c arts)) <$> seq 0 K).
Proof.
  unfold render_clusters, clusters. f_equal.
  rewrite imap_fmap.
  pose proof (imap_seq_0 (seq 0 K)
    (fun c => render_cluster c (cluster_members predict m c arts))) as Hseq.
  rewrite length_seq in Hseq. rewrite <- Hseq.
  apply imap_ext. intros i c Hc. simpl.
  apply lookup_seq in Hc as [-> _]. reflexivity.
Qed.

Lemma mapM_embeddings arts (s : state World) :
  Forall (fun a => is_Some (embedding a)) arts ->
  mapM (fun a => getkey "embedding" (embedding a)) arts s
  = (Ok (omap embedding arts), s).
Proof.
  induction 1 as [| a rest [e He] _ IH]; simpl.
  - reflexivity.
  - unfold bind at 1. rewrite He. simpl.
    unfold bind at 1. rewrite IH. reflexivity.
Qed.

Lemma label_of_embedding m a :
  is_Some (label_of predict m a) -> is_Some (embedding a).
Proof.
  unfold label_of. destruct (embedding a); [eauto |].
  intros [? ?]; discriminate.
Qed.

End KMeansCell.

(** ** Computations that leave [articles] alone *)

Section Frame.

Context {World : Type}.

Lemma keeps_ret {A} (a : A) : keeps_articles (World:=World) (ret a).
Proof. intros s. reflexivity. Qed.

Lemma keeps_raise {A} e : keeps_articles (World:=World) (A:=A) (raise e).
Proof. intros s. reflexivity. Qed.

Lemma keeps_bind {A B} (m : M World A) (k : A -> M World B) :
  keeps_articles m -> (forall a, keeps_articles (k a)) -> keeps_articles (bind m k).
Proof.
  intros Hm Hk s. unfold bind. specialize (Hm s).
  destruct (m s) as [[a | e] s']; simpl in *.
  - rewrite Hk. exact Hm.
  - exact Hm.
Qed.

Lemma keeps_print line : keeps_articles (World:=World) (print line).
Proof. intros s. reflexivity. Qed.

Lemma keeps_external {A} c (g : World -> result A * World) : keeps_articles (external c g).
Proof. intros s. unfold external. destruct (g (world s)). reflexivity. Qed.

Lemma keeps_getitem {A} (l : list A) i : keeps_articles (World:=World) (getitem l i).
Proof. intros s. unfold getitem. destruct (l !! i); reflexivity. Qed.

Lemma keeps_getkey {A} key (o : option A) : keeps_articles (World:=World) (getkey key o).
Proof. intros s. unfold getkey. destruct o; reflexivity. Qed.

Lemma keeps_lift {A} (r : result A) : keeps_articles (World:=World) (lift r).
Proof. intros s. reflexivity. Qed.

Lemma keeps_get_articles : keeps_articles (World:=World) get_articles.
Proof. intros s. reflexivity. Qed.

Lemma keeps_mapM {A B} (g : A -> M World B) l :
  (forall x, keeps_articles (g x)) -> keeps_articles (mapM g l).
Proof.
  intros Hg. induction l as [| x rest IH]; simpl.
  - apply keeps_ret.
  - apply keeps_bind; [apply Hg |]. intros y.
    apply keeps_bind; [exact IH |]. intros ys. apply keeps_ret.
Qed.

Lemma keeps_for_range idx (body : nat -> M World unit) :
  (forall i, keeps_articles (body i)) -> keeps_articles (for_range idx body).
Proof.
  intros Hb. induction idx as [| i rest IH]; simpl.
  - apply keeps_ret.
  - apply keeps_bind; [apply Hb |]. intros _. exact IH.
Qed.

Lemma keeps_for_article (body : nat -> article -> M World unit) :
  (forall i a, keeps_articles (body i a)) -> keeps_articles (for_article body).
Proof.
  intros Hb s. unfold for_article.
  apply keeps_for_range. intros i s'.
  destruct (articles s' !! i); [apply Hb | reflexivity].
Qed.

Lemma keeps_kmeans_cell {kmeans}
    (KMeans_fit : Z -> Z -> Z -> list (list float) -> World -> result kmeans * World)
    (predict : kmeans -> list (list float) -> result (list Z)) K :
  keeps_articles (kmeans_cell KMeans_fit predict K).
Proof.
  unfold kmeans_cell.
  apply keeps_bind; [apply keeps_get_articles |]. intros arts.
  apply keeps_bind; [apply keeps_mapM; intros a; apply keeps_getkey |]. intros rows.
  apply keeps_bind; [apply keeps_lift |]. intros X.
  apply keeps_bind; [apply keeps_external |]. intros m.
  apply keeps_for_range. intros c. unfold print_cluster.
  apply keeps_bind; [apply keeps_print |]. intros _.
  apply keeps_bind; [| intros _; apply keeps_print].
  apply keeps_for_article. intros i a. unfold print_if_member.
  apply keeps_bind; [apply keeps_getkey |]. intros e.
  apply keeps_bind; [apply keeps_lift |]. intros ls.
  apply keeps_bind; [apply keeps_getitem |]. intros l.
  destruct (l =? Z.of_nat c); [apply keeps_print | apply keeps_ret].
Qed.

Lemma keeps_cell9
    (ChatCompletion_create : chat_request -> World -> result chat_completion * World) :
  keeps_articles (cell9 ChatCompletion_create).
Proof.
  unfold cell9.
  apply keeps_bind; [apply keeps_get_articles |]. intros arts.
  apply keeps_bind.
  { apply keeps_mapM. intros a. unfold entry_of.
    apply keeps_bind; [apply keeps_getkey |]. intros smr. apply keeps_ret. }
  intros entries.
  apply keeps_bind; [apply keeps_external |]. intros completion.
  apply keeps_bind; [apply keeps_getitem |]. intros c.
  apply keeps_bind; [apply keeps_print |]. intros _. apply keeps_ret.
Qed.

End Frame.

(** ** The frame of the pipeline *)

Section FrameClaim.

Context {World kmeans : Type}.
Variable Embedding_create : embedding_request -> World -> result embedding_response * World.
Variable ChatCompletion_create : chat_request -> World -> result chat_completion * World.
Variable KMeans_fit : Z -> Z -> Z -> list (list float) -> World -> result kmeans * World.
Variable predict : kmeans -> list (list float) -> result (list Z).

(** C10.  Whether they finish or raise, the loops of cells 4 and 5 leave
    the list with the same documents in the same order: same length,
    and position by position the same title and text.  Cell 4 changes at
    most the embedding of a dictionary, cell 5 at most its summary; the
    later cells do not touch the list at all. *)
Theorem loops_only_add_their_field (s : state World) :
  Forall2 (fun a a' => same_document a a' /\ summary a' = summary a)
          (articles s) (articles (cell4 Embedding_create s).2)
  /\ Forall2 (fun a a' => same_document a a' /\ embedding a' = embedding a)
             (articles s) (articles (cell5 ChatCompletion_create s).2)
  /\ articles (cell6 KMeans_fit predict s).2 = articles s
  /\ articles (cell9 ChatCompletion_create s).2 = articles s.
Proof.
  split; [| split; [| split]].
  - rewrite cell4_loop.
    destruct (annotate_loop_articles (embedding_of Embedding_create) set_embedding
                (articles s) [] s) as (todo' & -> & Hall).
    simpl. eapply Forall2_impl; [exact Hall |].
    intros a a' [-> | [v ->]]; repeat split.
  - rewrite cell5_loop.
    destruct (annotate_loop_articles (summary_of ChatCompletion_create) set_summary
                (articles s) [] s) as (todo' & -> & Hall).
    simpl. eapply Forall2_impl; [exact Hall |].
    intros a a' [-> | [v ->]]; repeat split.
  - apply keeps_kmeans_cell.
  - apply keeps_cell9.
Qed.

End FrameClaim.

(** ** The groups of cell 6 *)

Section Partition.

Context {World kmeans : Type}.
Variable KMeans_fit : Z -> Z -> Z -> list (list float) -> World -> result kmeans * World.
Variable predict : kmeans -> list (list float) -> result (list Z).

Lemma concat_fmap_nil {A} (cs : list nat) :
  concat ((fun _ => @nil A) <$> cs) = [].
Proof. induction cs; simpl; auto. Qed.

Lemma concat_skip_one {A} (F : nat -> list A) (x : A) (l : nat) cs :
  l ∉ cs ->
  concat ((fun c => if decide (c = l) then x :: F c else F c) <$> cs)
  = concat (F <$> cs).
Proof.
  induction cs as [| c cs IH]; intros Hl; [reflexivity |].
  rewrite !fmap_cons. cbn [concat].
  apply not_elem_of_cons in Hl as [Hne Hl].
  rewrite decide_False by congruence. rewrite IH by exact Hl. reflexivity.
Qed.

Lemma concat_insert_one {A} (F : nat -> list A) (x : A) (l : nat) cs :
  NoDup cs -> l ∈ cs ->
  concat ((fun c => if decide (c = l) then x :: F c else F c) <$> cs)
  ≡ₚ x :: concat (F <$> cs).
Proof.
  induction cs as [| c cs IH]; intros Hnd Hl.
  - apply elem_of_nil in Hl as [].
  - apply NoDup_cons in Hnd as [Hc Hnd].
    rewrite !fmap_cons. cbn [concat].
    destruct (decide (c = l)) as [-> | Hne].
    + rewrite concat_skip_one by exact Hc. reflexivity.
    + apply elem_of_cons in Hl as [-> | Hl]; [congruence |].
      rewrite IH by assumption. symmetry. apply Permutation_middle.
Qed.

Lemma cluster_members_cons m c a arts l :
  label_of predict m a = Some l -> 0 <= l ->
  cluster_members predict m c (a :: arts)
  = if decide (c = Z.to_nat l) then a :: cluster_members predict m c arts
    else cluster_members predict m c arts.
Proof.
  intros Hl Hpos. unfold cluster_members. rewrite filter_cons, Hl.
  destruct (decide (c = Z.to_nat l)) as [-> | Hne].
  - rewrite decide_True; [reflexivity | f_equal; lia].
  - rewrite decide_False; [reflexivity |]. intros [= ->]. lia.
Qed.

Lemma concat_clusters m K arts :
  Forall (fun a => exists l, label_of predict m a = Some l /\ 0 <= l < Z.of_nat K) arts ->
  concat (clusters predict m K arts) ≡ₚ arts.
Proof.
  unfold clusters. induction 1 as [| a rest (l & Hl & Hpos & Hlt) _ IH].
  - rewrite (list_fmap_ext _ (fun _ => []) (seq 0 K)) by (intros; reflexivity).
    rewrite concat_fmap_nil. reflexivity.
  - rewrite (list_fmap_ext _
               (fun c => if decide (c = Z.to_nat l)
                         then a :: cluster_members predict m c rest
                         else cluster_members predict m c rest) (seq 0 K)).
    2:{ intros i c _. apply (cluster_members_cons _ _ _ _ l); [assumption | lia]. }
    rewrite concat_insert_one.
    + apply Permutation_cons; [reflexivity | exact IH].
    + apply NoDup_seq.
    + apply elem_of_seq. lia.
Qed.

Lemma elem_of_clusters m K arts c g a :
  clusters predict m K arts !! c = Some g ->
  a ∈ g <-> label_of predict m a = Some (Z.of_nat c) /\ a ∈ arts.
Proof.
  unfold clusters. rewrite list_lookup_fmap.
  destruct (seq 0 K !! c) as [c' |] eqn:Hc; [| discriminate].
  apply lookup_seq in Hc as [-> _]. simpl. intros [= <-].
  unfold cluster_members. rewrite list_elem_of_filter. reflexivity.
Qed.

(** C1, as the code has it.  When the fitted model labels every article
    with a number in [0, K), cell 6 prints exactly [K] groups, under the
    headers [Cluster 1] to [Cluster K]; the groups together hold every
    article once, none omitted and none duplicated, and every article is
    in exactly one group, the one of its label.  Nothing makes every
    group non-empty.  The fit is given the array [X] that [np.array]
    makes of the embeddings. *)
Theorem kmeans_cell_partitions (K : nat) (s : state World) X m w :
  Forall (fun a => exists l, label_of predict m a = Some l /\ 0 <= l < Z.of_nat K)
         (articles s) ->
  np_array (omap embedding (articles s)) = Ok X ->
  KMeans_fit (Z.of_nat K) 0 10 X (world s) = (Ok m, w) ->
  let groups := clusters predict m K (articles s) in
  kmeans_cell KMeans_fit predict K s
  = (Ok tt,
     {| world := w; articles := articles s;
        stdout := stdout s ++ render_clusters groups;
        calls := calls s ++ [FitCall (Z.of_nat K) 0 10 X] |})
  /\ length groups = K
  /\ concat groups ≡ₚ articles s
  /\ (forall a, a ∈ articles s ->
        exists c, (c < K)%nat /\
          forall c' g, groups !! c' = Some g -> a ∈ g <-> c' = c).
Proof.
  intros Hall Harr Hfit groups.
  assert (Hlab : Forall (fun a => is_Some (label_of predict m a)) (articles s)).
  { eapply Forall_impl; [exact Hall |]. intros a (l & Hl & _). eauto. }
  split; [| split; [| split]].
  - unfold kmeans_cell, bind, get_articles.
    rewrite mapM_embeddings.
    2:{ eapply Forall_impl; [exact Hlab |]. intros a. apply label_of_embedding. }
    unfold lift. rewrite Harr.
    unfold external. rewrite Hfit.
    rewrite for_range_print_clusters by exact Hlab.
    unfold printed, groups. simpl. rewrite render_clusters_seq. reflexivity.
  - unfold groups, clusters. rewrite length_fmap, length_seq. reflexivity.
  - apply concat_clusters. exact Hall.
  - intros a Ha.
    pose proof (proj1 (Forall_forall _ _) Hall a Ha) as (l & Hl & Hpos & Hlt).
    exists (Z.to_nat l). split; [lia |].
    intros c' g Hg. rewrite (elem_of_clusters _ _ _ _ _ _ Hg), Hl.
    split.
    + intros [[= Heq] _]. lia.
    + intros ->. split; [f_equal; lia | exact Ha].
Qed.

End Partition.

(** ** Cell 9 *)

Section Prompting.

Context {World : Type}.
Variable ChatCompletion_create : chat_request -> World -> result chat_completion * World.

Lemma mapM_entry_of arts : forall smrs (s : state World),
  summary <$> arts = Some <$> smrs ->
  mapM entry_of arts s = (Ok (zip_with clustering_entry (title <$> arts) smrs), s).
Proof.
  induction arts as [| a rest IH]; intros [| smr smrs] s Heq; try discriminate.
  - reflexivity.
  - rewrite !fmap_cons in Heq. injection Heq as Ha Hrest. simpl.
    unfold bind at 1. unfold entry_of at 1. rewrite Ha. simpl.
    unfold bind at 1. rewrite (IH smrs) by exact Hrest. reflexivity.
Qed.

Lemma mapM_entry_of_missing arts : forall (s : state World),
  Exists (fun a => summary a = None) arts ->
  mapM entry_of arts s = (Raise (KeyError "summary"), s).
Proof.
  induction arts as [| a rest IH]; intros s Hex.
  - inversion Hex.
  - simpl. unfold bind at 1. unfold entry_of at 1.
    destruct (summary a) as [smr |] eqn:Ha; simpl.
    + apply Exists_cons in Hex as [Hex | Hex]; [congruence |].
      unfold bind at 1. rewrite IH by exact Hex. reflexivity.
    + reflexivity.
Qed.

Lemma summaries_present_or_missing (arts : list article) :
  (exists smrs, summary <$> arts = Some <$> smrs)
  \/ Exists (fun a => summary a = None) arts.
Proof.
  induction arts as [| a rest [[smrs IH] | IH]].
  - left. exists []. reflexivity.
  - destruct (summary a) as [smr |] eqn:Ha.
    + left. exists (smr :: smrs). rewrite !fmap_cons, Ha, IH. reflexivity.
    + right. apply Exists_cons_hd. exact Ha.
  - right. apply Exists_cons_tl. exact IH.
Qed.

(** What cell 9 does once every article has a summary. *)
Lemma cell9_run (s : state World) smrs :
  summary <$> articles s = Some <$> smrs ->
  let req := clustering_request_of
               (zip_with clustering_entry (title <$> articles s) smrs) in
  cell9 ChatCompletion_create s
  = match ChatCompletion_create req (world s) with
    | (Ok completion, w) =>
        match choices completion !! 0%nat with
        | Some c => (Ok (content (message c)),
                     printed [content (message c)] (called (ChatCall req) w s))
        | None => (Raise IndexError, called (ChatCall req) w s)
        end
    | (Raise e, w) => (Raise e, called (ChatCall req) w s)
    end.
Proof.
  intros Hs req. unfold cell9, bind, get_articles.
  rewrite (mapM_entry_of _ smrs) by exact Hs.
  fold req. unfold external, called.
  destruct (ChatCompletion_create req (world s)) as [[completion | e] w]; [| reflexivity].
  unfold getitem. destruct (choices completion !! 0%nat); reflexivity.
Qed.





(** C4, as the code has it.  The notebook has no parser.  Whatever text
    the model answers with, cell 9 binds [clusters] to that text and
    prints it; its value is a string, not a structure. *)
Theorem cell9_binds_response_text (s : state World) smrs completion c w :
  summary <$> articles s = Some <$> smrs ->
  ChatCompletion_create
    (clustering_request_of (zip_with clustering_entry (title <$> articles s) smrs))
    (world s) = (Ok completion, w) ->
  choices completion !! 0%nat = Some c ->
  (cell9 ChatCompletion_create s).1 = Ok (content (message c))
  /\ value_of_result (cell9 ChatCompletion_create s).1 = Some (PyStr (content (message c)))
  /\ stdout (cell9 ChatCompletion_create s).2 = stdout s ++ [content (message c)].
Proof.
  intros Hs Hcall Hc. rewrite (cell9_run s smrs Hs), Hcall, Hc.
  repeat split.
Qed.

(** C5, as the code has it.  A bullet line whose title is not the title
    of any article is not reported and not removed: cell 9 finishes
    without an exception and the line is part of what it binds and
    prints. *)
Theorem cell9_keeps_unknown_titles (s : state World) smrs completion c w bullet :
  summary <$> articles s = Some <$> smrs ->
  ChatCompletion_create
    (clustering_request_of (zip_with clustering_entry (title <$> articles s) smrs))
    (world s) = (Ok completion, w) ->
  choices completion !! 0%nat = Some c ->
  bullet ∉ title <$> articles s ->
  occurs_in (lit " - " ++ bullet) (content (message c)) ->
  exists out,
    (cell9 ChatCompletion_create s).1 = Ok out
    /\ last (stdout (cell9 ChatCompletion_create s).2) = Some out
    /\ occurs_in (lit " - " ++ bullet) out.
Proof.
  intros Hs Hcall Hc _ Hocc. exists (content (message c)).
  rewrite (cell9_run s smrs Hs), Hcall, Hc. simpl.
  split; [reflexivity |]. split; [apply last_snoc | exact Hocc].
Qed.


End Prompting.

(** ** Cell 2 *)

Section Fetching.

Context {World : Type}.
Variable get_random_wikipedia_article_title : World -> result (str * str) * World.

Lemma for_range_fetch idx : forall (s s' : state World),
  for_range idx (fetch_article get_random_wikipedia_article_title) s = (Ok tt, s') ->
  exists new,
    articles s' = articles s ++ new
    /\ length new = length idx
    /\ Forall (fun a => embedding a = None /\ summary a = None) new.
Proof.
  induction idx as [| i rest IH]; intros s s' Hrun; simpl in Hrun.
  - injection Hrun as <-. exists []. rewrite app_nil_r. repeat split. constructor.
  - unfold bind at 1 in Hrun. unfold fetch_article at 1 in Hrun.
    unfold bind, external, append_article in Hrun.
    destruct (get_random_wikipedia_article_title (world s)) as [[p | e] w];
      [| discriminate].
    apply IH in Hrun as (new & Heq & Hlen & Hall). simpl in Heq.
    exists ({| title := p.1; text := p.2; embedding := None; summary := None |} :: new).
    split; [rewrite Heq, <- app_assoc; reflexivity |].
    split; [simpl; rewrite Hlen; reflexivity |].
    constructor; [split; reflexivity | exact Hall].
Qed.

(** When all fetches succeed, cell 2 leaves 23 dictionaries that have a
    title and a text and nothing else. *)
Lemma cell2_fetches_23 (s s' : state World) :
  cell2 get_random_wikipedia_article_title s = (Ok tt, s') ->
  length (articles s') = 23%nat
  /\ Forall (fun a => embedding a = None /\ summary a = None) (articles s').
Proof.
  unfold cell2. intros Hrun.
  apply for_range_fetch in Hrun as (new & Heq & Hlen & Hall).
  simpl in Heq. subst new. rewrite length_seq in Hlen. split; assumption.
Qed.

End Fetching.

(** ** Concrete runs *)

Example slice_to_example : slice_to (lit "abcdef") 4 = lit "abcd".
Proof. reflexivity. Qed.

Example slice_to_short_example : slice_to (lit "abc") 5555 = lit "abc".
Proof. reflexivity. Qed.

Example join_example : join nl [lit "a"; lit "b"] = lit "a" ++ nl ++ lit "b".
Proof. reflexivity. Qed.

(** Cell 6 on three documents and two clusters prints what the notebook
    shows: a header, the bullet lines and an empty line per cluster. *)
Example kmeans_cell_output :
  stdout (kmeans_cell Sample.threshold_fit Sample.threshold_predict 2
            (Sample.initial [Sample.doc_a; Sample.doc_b; Sample.doc_c])).2
  = [lit "Cluster 1"; lit " - Doc A"; lit " - Doc B"; [];
     lit "Cluster 2"; lit " - Doc C"; []].
Proof. reflexivity. Qed.

(** With an article that has no embedding yet, cell 6 stops before the fit. *)
Example cell6_without_embedding :
  cell6 Sample.threshold_fit Sample.threshold_predict
        (Sample.initial [Sample.doc_a; Sample.raw "Doc B" "Beta is a letter."])
  = (Raise (KeyError "embedding"),
     Sample.initial [Sample.doc_a; Sample.raw "Doc B" "Beta is a letter."]).
Proof. reflexivity. Qed.


Lemma filter_replicate_nonempty {A} (P : A -> Prop) `{!forall x, Decision (P x)} n x :
  filter P (replicate n x) <> [] -> P x.
Proof.
  intros Hne. destruct (decide (P x)) as [HP | HP]; [exact HP |].
  exfalso. apply Hne. clear Hne. induction n as [| n IH]; [reflexivity |].
  simpl. rewrite filter_cons, decide_False by exact HP. exact IH.
Qed.

(** C1 fails as stated.  Two articles with the same embedding get the
    same label from any fitted model, so 23 articles with one embedding
    cannot fill 7 groups, although [1 <= 7 <= 23]. *)
Lemma identical_embeddings_leave_clusters_empty :
  (1 <= 7 <= length (replicate 23 Sample.doc_a))%nat
  /\ ~ exists (kmeans : Type) (predict : kmeans -> list (list float) -> result (list Z))
         (m : kmeans),
         Forall (fun g => g <> []) (clusters predict m 7 (replicate 23 Sample.doc_a)).
Proof.
  split; [rewrite length_replicate; lia |].
  intros (kmeans & predict & m & Hall).
  pose proof (proj1 (Forall_lookup _ _) Hall 0%nat _ eq_refl) as H0.
  pose proof (proj1 (Forall_lookup _ _) Hall 1%nat _ eq_refl) as H1.
  apply filter_replicate_nonempty in H0, H1.
  rewrite H0 in H1. discriminate.
Qed.

(** The partition of cell 6 on three documents and two clusters. *)
Lemma kmeans_cell_partitions_witness :
  let s := Sample.initial [Sample.doc_a; Sample.doc_b; Sample.doc_c] in
  let groups := clusters Sample.threshold_predict 2%float 2 (articles s) in
  Forall (fun a => exists l, label_of Sample.threshold_predict 2%float a = Some l
                             /\ 0 <= l < Z.of_nat 2) (articles s)
  /\ np_array (omap embedding (articles s)) = Ok (omap embedding (articles s))
  /\ groups = [[Sample.doc_a; Sample.doc_b]; [Sample.doc_c]]
  /\ kmeans_cell Sample.threshold_fit Sample.threshold_predict 2 s
     = (Ok tt,
        {| world := 1%nat; articles := articles s;
           stdout := stdout s ++ render_clusters groups;
           calls := calls s ++ [FitCall (Z.of_nat 2) 0 10 (omap embedding (articles s))] |})
  /\ length groups = 2%nat
  /\ concat groups ≡ₚ articles s
  /\ (forall a, a ∈ articles s ->
        exists c, (c < 2)%nat /\
          forall c' g, groups !! c' = Some g -> a ∈ g <-> c' = c).
Proof.
  intros s groups.
  assert (Hall : Forall (fun a => exists l, label_of Sample.threshold_predict 2%float a = Some l
                                            /\ 0 <= l < Z.of_nat 2) (articles s)).
  { repeat constructor.
    - exists 0. split; [reflexivity | simpl; lia].
    - exists 0. split; [reflexivity | simpl; lia].
    - exists 1. split; [reflexivity | simpl; lia]. }
  split; [exact Hall |]. split; [reflexivity |]. split; [reflexivity |].
  apply (kmeans_cell_partitions Sample.threshold_fit Sample.threshold_predict
           2 s (omap embedding (articles s)) 2%float 1%nat Hall).
  - reflexivity.
  - reflexivity.
Defined.

(** Both loops with endpoints whose second call fails. *)
Lemma provider_failure_halts_batch_witness :
  let ra := Sample.raw "Doc A" "Alpha is a letter." in
  let rb := Sample.raw "Doc B" "Beta is a letter." in
  let rc := Sample.raw "Doc C" "Rome is a city." in
  let s := Sample.initial [ra; rb; rc] in
  let e := External (lit "RateLimitError") in
  articles s = [ra] ++ rb :: [rc]
  /\ cell4 Sample.embed_flaky s
     = (Raise e,
        {| world := 2%nat;
           articles := [set_embedding [1%float] ra; rb; rc];
           stdout := [];
           calls := [EmbeddingCall (embedding_request_of ra);
                     EmbeddingCall (embedding_request_of rb)] |})
  /\ cell5 Sample.chat_flaky s
     = (Raise e,
        {| world := 2%nat;
           articles := [set_summary (lit "Summary.") ra; rb; rc];
           stdout := [];
           calls := [ChatCall (summary_request_of ra);
                     ChatCall (summary_request_of rb)] |}).
Proof.
  intros ra rb rc s e. split; [reflexivity |].
  destruct (provider_failure_halts_batch Sample.embed_flaky Sample.chat_flaky
              s [ra] rb [rc] e eq_refl) as [H4 H5].
  split.
  - exact (H4 {| world := 1%nat; articles := [set_embedding [1%float] ra];
                 stdout := []; calls := [EmbeddingCall (embedding_request_of ra)] |}
              2%nat eq_refl eq_refl).
  - exact (H5 {| world := 1%nat; articles := [set_summary (lit "Summary.") ra];
                 stdout := []; calls := [ChatCall (summary_request_of ra)] |}
              2%nat eq_refl eq_refl).
Defined.


(** C4 fails as stated: on the sample response, what cell 9 yields is not
    the structure with two labelled clusters. *)
Lemma sample_response_is_not_parsed :
  value_of_result
    (cell9 (Sample.chat_says Sample.response)
           (Sample.initial [Sample.doc_a; Sample.doc_b; Sample.doc_c])).1
  <> Some Sample.expected_structure.
Proof. intros H. vm_compute in H. discriminate H. Qed.

(** Cell 9 on the sample response. *)
Lemma cell9_binds_response_text_witness :
  let s := Sample.initial [Sample.doc_a; Sample.doc_b; Sample.doc_c] in
  let smrs := [lit "A letter."; lit "Another letter."; lit "A city."] in
  let chat := Sample.chat_says Sample.response in
  summary <$> articles s = Some <$> smrs
  /\ (cell9 chat s).1 = Ok Sample.response
  /\ value_of_result (cell9 chat s).1 = Some (PyStr Sample.response)
  /\ stdout (cell9 chat s).2 = stdout s ++ [Sample.response].
Proof.
  intros s smrs chat. split; [reflexivity |].
  apply (cell9_binds_response_text chat s smrs (Sample.reply Sample.response)
           {| message := {| role := lit "assistant"; content := Sample.response |} |}
           1%nat); reflexivity.
Defined.

Lemma doc_z_is_unknown :
  lit "Doc Z" ∉ title <$> [Sample.doc_a; Sample.doc_b; Sample.doc_c].
Proof.
  intros H. vm_compute in H.
  repeat (apply elem_of_cons in H as [H | H]; [discriminate H |]).
  apply elem_of_nil in H. exact H.
Defined.

Lemma doc_z_occurs :
  occurs_in (lit " - " ++ lit "Doc Z") Sample.response_unknown_title.
Proof.
  exists (lit "Cluster 1: Test" ++ nl ++ lit " - Doc A" ++ nl), nl.
  vm_compute. reflexivity.
Defined.

(** C5 fails as stated: a bullet naming the unknown title [Doc Z] raises
    nothing and stays in what cell 9 yields and prints. *)
Lemma unknown_title_is_not_reported :
  let r := cell9 (Sample.chat_says Sample.response_unknown_title)
                 (Sample.initial [Sample.doc_a; Sample.doc_b; Sample.doc_c]) in
  (lit "Doc Z" ∉ title <$> [Sample.doc_a; Sample.doc_b; Sample.doc_c])
  /\ r.1 = Ok Sample.response_unknown_title
  /\ stdout r.2 = [Sample.response_unknown_title]
  /\ occurs_in (lit " - " ++ lit "Doc Z") Sample.response_unknown_title.
Proof.
  intros r. split; [exact doc_z_is_unknown |].
  split; [reflexivity |]. split; [reflexivity | exact doc_z_occurs].
Qed.

(** Cell 9 on the response that names [Doc Z]. *)
Lemma cell9_keeps_unknown_titles_witness :
  let s := Sample.initial [Sample.doc_a; Sample.doc_b; Sample.doc_c] in
  let chat := Sample.chat_says Sample.response_unknown_title in
  (lit "Doc Z" ∉ title <$> articles s)
  /\ exists out,
       (cell9 chat s).1 = Ok out
       /\ last (stdout (cell9 chat s).2) = Some out
       /\ occurs_in (lit " - " ++ lit "Doc Z") out.
Proof.
  intros s chat. split; [exact doc_z_is_unknown |].
  apply (cell9_keeps_unknown_titles chat s
           [lit "A letter."; lit "Another letter."; lit "A city."]
           (Sample.reply Sample.response_unknown_title)
           {| message := {| role := lit "assistant";
                            content := Sample.response_unknown_title |} |}
           1%nat (lit "Doc Z")).
  - reflexivity.
  - reflexivity.
  - reflexivity.
  - exact doc_z_is_unknown.
  - exact doc_z_occurs.
Defined.



(** * Further properties of the cells *)

(** ** Cell 2: the fetch loop *)

Section FetchLoop.

Context {World : Type}.
Variable get_random_wikipedia_article_title : World -> result (str * str) * World.




End FetchLoop.

(** ** Cells 4 and 5: what a finished loop leaves *)

Section AnnotateLoopResult.

Context {World V : Type}.
Variable act : article -> M World V.
Variable f : V -> article -> article.
Variable c : article -> call.
Variable Q : article -> V -> Prop.

Hypothesis act_calls : forall a s, calls (act a s).2 = calls s ++ [c a].
Hypothesis act_stdout : forall a s, stdout (act a s).2 = stdout s.
Hypothesis act_value : forall a s v s', act a s = (Ok v, s') -> Q a v.

Lemma annotate_loop_stdout todo : forall done s,
  stdout (annotate_loop act f done todo s).2 = stdout s.
Proof.
  induction todo as [| a rest IH]; intros done s; simpl.
  - reflexivity.
  - pose proof (act_stdout a s) as Ho.
    destruct (act a s) as [[v | e] s'] eqn:Hact; simpl in *.
    + rewrite IH. exact Ho.
    + exact Ho.
Qed.

Lemma annotate_loop_ok todo : forall done s s',
  annotate_loop act f done todo s = (Ok tt, s') ->
  (exists todo',
     articles s' = done ++ todo'
     /\ Forall2 (fun a a' => exists v, Q a v /\ a' = f v a) todo todo')
  /\ calls s' = calls s ++ (c <$> todo).
Proof.
  induction todo as [| a rest IH]; intros done s s' Hrun; simpl in Hrun.
  - injection Hrun as <-. simpl. rewrite !app_nil_r. split; [| reflexivity].
    exists []. rewrite app_nil_r. split; [reflexivity | constructor].
  - pose proof (act_calls a s) as Hc.
    destruct (act a s) as [[v | e] s1] eqn:Hact; [| discriminate].
    simpl in Hc.
    apply IH in Hrun as [(todo' & Harts & Hall) Hcalls].
    split.
    + exists (f v a :: todo'). split.
      * rewrite Harts, <- app_assoc. reflexivity.
      * constructor; [| exact Hall]. exists v. split; [| reflexivity].
        eapply act_value. exact Hact.
    + rewrite Hcalls, Hc, fmap_cons, <- app_assoc. reflexivity.
Qed.

End AnnotateLoopResult.

Section LoopResults.

Context {World : Type}.
Variable Embedding_create : embedding_request -> World -> result embedding_response * World.
Variable ChatCompletion_create : chat_request -> World -> result chat_completion * World.

Lemma embedding_of_stdout a (s : state World) :
  stdout (embedding_of Embedding_create a s).2 = stdout s.
Proof.
  unfold embedding_of, bind, external, getitem.
  destruct (Embedding_create _ _) as [[response | e] w]; [| reflexivity].
  destruct (data response !! 0%nat); reflexivity.
Qed.

Lemma summary_of_stdout a (s : state World) :
  stdout (summary_of ChatCompletion_create a s).2 = stdout s.
Proof.
  unfold summary_of, bind, external, getitem.
  destruct (ChatCompletion_create _ _) as [[completion | e] w]; [| reflexivity].
  destruct (choices completion !! 0%nat); reflexivity.
Qed.

Lemma embedding_of_value a (s s' : state World) v :
  embedding_of Embedding_create a s = (Ok v, s') ->
  exists w w' response d,
    Embedding_create (embedding_request_of a) w = (Ok response, w')
    /\ data response !! 0%nat = Some d
    /\ v = datum_embedding d.
Proof.
  unfold embedding_of, bind, external, getitem.
  destruct (Embedding_create _ (world s)) as [[response | e] w'] eqn:Hcall; [| discriminate].
  destruct (data response !! 0%nat) as [d |] eqn:Hd; [| discriminate].
  intros [= <- _]. exists (world s), w', response, d. auto.
Qed.

Lemma summary_of_value a (s s' : state World) v :
  summary_of ChatCompletion_create a s = (Ok v, s') ->
  exists w w' completion ch,
    ChatCompletion_create (summary_request_of a) w = (Ok completion, w')
    /\ choices completion !! 0%nat = Some ch
    /\ v = content (message ch).
Proof.
  unfold summary_of, bind, external, getitem.
  destruct (ChatCompletion_create _ (world s)) as [[completion | e] w'] eqn:Hcall;
    [| discriminate].
  destruct (choices completion !! 0%nat) as [ch |] eqn:Hch; [| discriminate].
  intros [= <- _]. exists (world s), w', completion, ch. auto.
Qed.

(** X2.  When cell 4 finishes, it has made exactly one embedding call
    per article, in the order of the list, and every article carries as
    its embedding the first datum of a successful response to its own
    request.  Title, text and summary are as before, and an embedding
    that was already there is replaced. *)
Theorem cell4_finished (s s' : state World) :
  cell4 Embedding_create s = (Ok tt, s') ->
  Forall2 (fun a a' =>
             exists w w' response d,
               Embedding_create (embedding_request_of a) w = (Ok response, w')
               /\ data response !! 0%nat = Some d
               /\ a' = {| title := title a; text := text a;
                          embedding := Some (datum_embedding d);
                          summary := summary a |})
          (articles s) (articles s')
  /\ calls s' = calls s ++ ((fun a => EmbeddingCall (embedding_request_of a)) <$> articles s).
Proof.
  rewrite cell4_loop. intros Hrun.
  apply (annotate_loop_ok (embedding_of Embedding_create) set_embedding
           (fun a => EmbeddingCall (embedding_request_of a))
           (fun a v => exists w w' response d,
                Embedding_create (embedding_request_of a) w = (Ok response, w')
                /\ data response !! 0%nat = Some d /\ v = datum_embedding d)
           (embedding_of_calls Embedding_create)
           (fun a s0 v s1 => embedding_of_value a s0 s1 v)) in Hrun as [(todo' & -> & Hall) Hcalls].
  split; [| exact Hcalls]. simpl.
  eapply Forall2_impl; [exact Hall |].
  intros a a' (v & (w & w' & response & d & Hcall & Hd & ->) & ->).
  exists w, w', response, d. auto.
Qed.

(** X3.  When cell 5 finishes, it has made exactly one chat call per
    article, in the order of the list, and every article carries as its
    summary the content of the first choice of a successful response to
    its own request.  Title, text and embedding are as before. *)
Theorem cell5_finished (s s' : state World) :
  cell5 ChatCompletion_create s = (Ok tt, s') ->
  Forall2 (fun a a' =>
             exists w w' completion ch,
               ChatCompletion_create (summary_request_of a) w = (Ok completion, w')
               /\ choices completion !! 0%nat = Some ch
               /\ a' = {| title := title a; text := text a;
                          embedding := embedding a;
                          summary := Some (content (message ch)) |})
          (articles s) (articles s')
  /\ calls s' = calls s ++ ((fun a => ChatCall (summary_request_of a)) <$> articles s).
Proof.
  rewrite cell5_loop. intros Hrun.
  apply (annotate_loop_ok (summary_of ChatCompletion_create) set_summary
           (fun a => ChatCall (summary_request_of a))
           (fun a v => exists w w' completion ch,
                ChatCompletion_create (summary_request_of a) w = (Ok completion, w')
                /\ choices completion !! 0%nat = Some ch /\ v = content (message ch))
           (summary_of_calls ChatCompletion_create)
           (fun a s0 v s1 => summary_of_value a s0 s1 v)) in Hrun as [(todo' & -> & Hall) Hcalls].
  split; [| exact Hcalls]. simpl.
  eapply Forall2_impl; [exact Hall |].
  intros a a' (v & (w & w' & completion & ch & Hcall & Hch & ->) & ->).
  exists w, w', completion, ch. auto.
Qed.

(** X4.  A response that carries nothing ends the loop like a failed
    call.  If the loop has gone through the articles [pre] and the
    embedding response for the next article [a] has an empty [data]
    list, cell 4 raises [IndexError]; likewise cell 5 when the
    completion has no choice.  [a] and the articles after it are left as
    they were and no further call is made. *)
Theorem empty_response_halts_batch (s : state World) pre a post :
  articles s = pre ++ a :: post ->
  (forall s1 w,
     cell4 Embedding_create (with_articles pre s) = (Ok tt, s1) ->
     Embedding_create (embedding_request_of a) (world s1) = (Ok {| data := [] |}, w) ->
     cell4 Embedding_create s
     = (Raise IndexError,
        {| world := w; articles := articles s1 ++ a :: post; stdout := stdout s1;
           calls := calls s1 ++ [EmbeddingCall (embedding_request_of a)] |}))
  /\ (forall s1 w,
        cell5 ChatCompletion_create (with_articles pre s) = (Ok tt, s1) ->
        ChatCompletion_create (summary_request_of a) (world s1)
        = (Ok {| choices := [] |}, w) ->
        cell5 ChatCompletion_create s
        = (Raise IndexError,
           {| world := w; articles := articles s1 ++ a :: post; stdout := stdout s1;
              calls := calls s1 ++ [ChatCall (summary_request_of a)] |})).
Proof.
  intros Hs. split; intros s1 w Hpre Hempty.
  - rewrite cell4_loop in Hpre |- *. simpl in Hpre.
    rewrite annotate_loop_with_articles in Hpre by apply embedding_of_frame.
    rewrite Hs. rewrite annotate_loop_app by apply embedding_of_frame.
    rewrite Hpre. simpl.
    unfold embedding_of, bind, external. rewrite Hempty. reflexivity.
  - rewrite cell5_loop in Hpre |- *. simpl in Hpre.
    rewrite annotate_loop_with_articles in Hpre by apply summary_of_frame.
    rewrite Hs. rewrite annotate_loop_app by apply summary_of_frame.
    rewrite Hpre. simpl.
    unfold summary_of, bind, external. rewrite Hempty. reflexivity.
Qed.

(** X5.  Cells 4 and 5 print nothing, whether they finish or raise. *)
Theorem loops_print_nothing (s : state World) :
  stdout (cell4 Embedding_create s).2 = stdout s
  /\ stdout (cell5 ChatCompletion_create s).2 = stdout s.
Proof.
  split.
  - rewrite cell4_loop. apply annotate_loop_stdout. apply embedding_of_stdout.
  - rewrite cell5_loop. apply annotate_loop_stdout. apply summary_of_stdout.
Qed.

End LoopResults.

(** ** Cell 6: the fit call and the missing key *)

Section KeepsProjection.

Context {World B : Type}.
Variable proj : state World -> B.
Hypothesis proj_print : forall line s, proj (print line s).2 = proj s.

Lemma keeps_proj_bind {A C} (m : M World A) (k : A -> M World C) :
  keeps proj m -> (forall a, keeps proj (k a)) -> keeps proj (bind m k).
Proof.
  intros Hm Hk s. unfold bind. specialize (Hm s).
  destruct (m s) as [[a | e] s']; simpl in *.
  - rewrite Hk. exact Hm.
  - exact Hm.
Qed.

Lemma keeps_proj_for_range idx (body : nat -> M World unit) :
  (forall i, keeps proj (body i)) -> keeps proj (for_range idx body).
Proof.
  intros Hb. induction idx as [| i rest IH]; simpl.
  - intros s. reflexivity.
  - apply keeps_proj_bind; [apply Hb |]. intros _. exact IH.
Qed.

Lemma keeps_proj_for_article (body : nat -> article -> M World unit) :
  (forall i a, keeps proj (body i a)) -> keeps proj (for_article body).
Proof.
  intros Hb s. unfold for_article.
  apply keeps_proj_for_range. intros i s'.
  destruct (articles s' !! i); [apply Hb | reflexivity].
Qed.

Lemma keeps_proj_print_cluster {kmeans}
    (predict : kmeans -> list (list float) -> result (list Z)) m cluster :
  keeps proj (print_cluster predict m cluster).
Proof.
  unfold print_cluster.
  apply keeps_proj_bind; [intros s; apply proj_print |]. intros _.
  apply keeps_proj_bind; [| intros _ s; apply proj_print].
  apply keeps_proj_for_article. intros i a. unfold print_if_member.
  apply keeps_proj_bind.
  { intros s. unfold getkey. destruct (embedding a); reflexivity. }
  intros e. apply keeps_proj_bind; [intros s; reflexivity |]. intros ls.
  apply keeps_proj_bind.
  { intros s. unfold getitem. destruct (ls !! 0%nat); reflexivity. }
  intros l. destruct (l =? Z.of_nat cluster); intros s; [apply proj_print | reflexivity].
Qed.

End KeepsProjection.

Section FitCall.

Context {World kmeans : Type}.
Variable KMeans_fit : Z -> Z -> Z -> list (list float) -> World -> result kmeans * World.
Variable predict : kmeans -> list (list float) -> result (list Z).

Lemma mapM_embeddings_missing arts : forall (s : state World),
  Exists (fun a => embedding a = None) arts ->
  mapM (fun a => getkey "embedding" (embedding a)) arts s
  = (Raise (KeyError "embedding"), s).
Proof.
  induction arts as [| a rest IH]; intros s Hex.
  - inversion Hex.
  - simpl. unfold bind at 1.
    destruct (embedding a) as [e |] eqn:Ha; simpl.
    + apply Exists_cons in Hex as [Hex | Hex]; [congruence |].
      unfold bind at 1. rewrite IH by exact Hex. reflexivity.
    + reflexivity.
Qed.

Lemma length_omap_embedding (arts : list article) :
  Forall (fun a => is_Some (embedding a)) arts ->
  length (omap embedding arts) = length arts.
Proof.
  induction 1 as [| a rest [e He] _ IH]; [reflexivity |].
  change (omap embedding (a :: rest))
    with (match embedding a with
          | Some y => y :: omap embedding rest
          | None => omap embedding rest
          end).
  rewrite He. cbn [length]. rewrite IH. reflexivity.
Qed.

(** X6.  One article without an embedding is enough for cell 6 to raise
    [KeyError] before anything else happens: the estimator is not
    called, nothing is printed, and the state is as it was. *)
Theorem kmeans_cell_missing_embedding (K : nat) (s : state World) :
  Exists (fun a => embedding a = None) (articles s) ->
  kmeans_cell KMeans_fit predict K s = (Raise (KeyError "embedding"), s).
Proof.
  intros Hex. unfold kmeans_cell, bind, get_articles.
  rewrite mapM_embeddings_missing by exact Hex. reflexivity.
Qed.

Lemma np_array_same_length rows :
  same_length rows -> np_array rows = Ok rows.
Proof.
  intros Hsame. destruct rows as [| r rest]; [reflexivity |].
  unfold np_array.
  replace (forallb _ rest) with true; [reflexivity |].
  symmetry. apply forallb_forall. intros r' Hin.
  apply Nat.eqb_eq. apply Hsame.
  - apply elem_of_cons. right. apply list_elem_of_In. exact Hin.
  - apply elem_of_cons. left. reflexivity.
Qed.

Lemma np_array_ragged rows :
  ~ same_length rows -> np_array rows = Raise (External (lit "ValueError")).
Proof.
  intros Hrag. destruct rows as [| r rest].
  - exfalso. apply Hrag. intros x y Hx. apply elem_of_nil in Hx as [].
  - unfold np_array.
    destruct (forallb _ rest) eqn:Hall; [| reflexivity].
    exfalso. apply Hrag.
    assert (Hlen : forall x, x ∈ r :: rest -> length x = length r).
    { intros x Hx. apply elem_of_cons in Hx as [-> | Hx]; [reflexivity |].
      apply Nat.eqb_eq.
      apply (proj1 (forallb_forall _ _) Hall). apply list_elem_of_In. exact Hx. }
    intros x y Hx Hy. rewrite (Hlen x Hx), (Hlen y Hy). reflexivity.
Qed.

Lemma kmeans_cell_array (K : nat) (s : state World) X :
  Forall (fun a => is_Some (embedding a)) (articles s) ->
  np_array (omap embedding (articles s)) = Ok X ->
  kmeans_cell KMeans_fit predict K s
  = bind (external (FitCall (Z.of_nat K) 0 10 X) (KMeans_fit (Z.of_nat K) 0 10 X))
         (fun m => for_range (seq 0 K) (print_cluster predict m)) s.
Proof.
  intros Hall Harr. unfold kmeans_cell at 1. unfold bind at 1. unfold get_articles.
  unfold bind at 1. rewrite mapM_embeddings by exact Hall.
  unfold bind at 1. unfold lift. rewrite Harr. reflexivity.
Qed.

Lemma kmeans_cell_no_array (K : nat) (s : state World) e :
  Forall (fun a => is_Some (embedding a)) (articles s) ->
  np_array (omap embedding (articles s)) = Raise e ->
  kmeans_cell KMeans_fit predict K s = (Raise e, s).
Proof.
  intros Hall Harr. unfold kmeans_cell, bind, get_articles.
  rewrite mapM_embeddings by exact Hall.
  unfold lift. rewrite Harr. reflexivity.
Qed.

Lemma kmeans_cell_calls (K : nat) (s : state World) X :
  Forall (fun a => is_Some (embedding a)) (articles s) ->
  np_array (omap embedding (articles s)) = Ok X ->
  calls (kmeans_cell KMeans_fit predict K s).2
  = calls s ++ [FitCall (Z.of_nat K) 0 10 X].
Proof.
  intros Hall Harr. rewrite (kmeans_cell_array K s X Hall Harr).
  unfold bind, external.
  destruct (KMeans_fit _ _ _ _ _) as [[m | e] w]; [| reflexivity].
  rewrite (keeps_proj_for_range calls); [reflexivity |].
  intros c. apply keeps_proj_print_cluster. reflexivity.
Qed.


(** X9.  Cell 6 can fail before it prints anything, in two ways.  When
    the embeddings do not all have the same length, [np.array] raises
    [ValueError]: the estimator is never called and the state is as it
    was.  When they do and the fit raises, cell 6 raises the same
    exception and the only trace is the call itself. *)
Theorem kmeans_cell_fit_failure (K : nat) (s : state World) :
  Forall (fun a => is_Some (embedding a)) (articles s) ->
  (~ same_length (omap embedding (articles s)) ->
   kmeans_cell KMeans_fit predict K s = (Raise (External (lit "ValueError")), s))
  /\ (forall e w,
        same_length (omap embedding (articles s)) ->
        KMeans_fit (Z.of_nat K) 0 10 (omap embedding (articles s)) (world s)
        = (Raise e, w) ->
        kmeans_cell KMeans_fit predict K s
        = (Raise e,
           {| world := w; articles := articles s; stdout := stdout s;
              calls := calls s
                       ++ [FitCall (Z.of_nat K) 0 10 (omap embedding (articles s))] |})).
Proof.
  intros Hall. split.
  - intros Hrag. apply kmeans_cell_no_array; [exact Hall |].
    apply np_array_ragged. exact Hrag.
  - intros e w Hsame Hfit.
    rewrite (kmeans_cell_array K s _ Hall (np_array_same_length _ Hsame)).
    unfold bind, external. rewrite Hfit. reflexivity.
Qed.

End FitCall.

(** ** Cell 6: labels outside the range *)

Section Groups.

Context {World kmeans : Type}.
Variable KMeans_fit : Z -> Z -> Z -> list (list float) -> World -> result kmeans * World.
Variable predict : kmeans -> list (list float) -> result (list Z).

Lemma in_range_label m K a :
  in_range predict m K a = true ->
  exists l, (l < K)%nat /\ label_of predict m a = Some (Z.of_nat l).
Proof.
  unfold in_range. destruct (label_of predict m a) as [l |]; [| discriminate].
  intros Hin. apply andb_true_iff in Hin as [Hlo Hhi].
  apply Z.leb_le in Hlo. apply Z.ltb_lt in Hhi.
  exists (Z.to_nat l). split; [lia |]. f_equal. lia.
Qed.

Lemma cluster_members_skip m K c a arts :
  in_range predict m K a = false -> (c < K)%nat ->
  cluster_members predict m c (a :: arts) = cluster_members predict m c arts.
Proof.
  unfold in_range. intros Hout Hc.
  unfold cluster_members. rewrite filter_cons.
  rewrite decide_False; [reflexivity |].
  intros Hl. rewrite Hl in Hout.
  apply andb_false_iff in Hout as [Hlo | Hhi].
  - apply Z.leb_gt in Hlo. lia.
  - apply Z.ltb_ge in Hhi. lia.
Qed.

Lemma concat_clusters_in_range m K arts :
  concat (clusters predict m K arts)
  ≡ₚ filter (fun a => in_range predict m K a = true) arts.
Proof.
  unfold clusters. induction arts as [| a rest IH].
  - rewrite (list_fmap_ext _ (fun _ => []) (seq 0 K)) by (intros; reflexivity).
    rewrite concat_fmap_nil. reflexivity.
  - rewrite filter_cons.
    destruct (in_range predict m K a) eqn:Hin.
    + rewrite decide_True by reflexivity.
      destruct (in_range_label m K a Hin) as (l & Hl & Hlab).
      rewrite (list_fmap_ext _
                 (fun c => if decide (c = l)
                           then a :: cluster_members predict m c rest
                           else cluster_members predict m c rest) (seq 0 K)).
      2:{ intros i c _.
          rewrite (cluster_members_cons predict m c a rest (Z.of_nat l)) by (exact Hlab || lia).
          rewrite Nat2Z.id. reflexivity. }
      rewrite concat_insert_one.
      * apply Permutation_cons; [reflexivity | exact IH].
      * apply NoDup_seq.
      * apply elem_of_seq. lia.
    + rewrite decide_False by discriminate.
      rewrite (list_fmap_ext _ (fun c => cluster_members predict m c rest) (seq 0 K)).
      * exact IH.
      * intros i c Hc. apply lookup_seq in Hc as [-> Hi].
        apply (cluster_members_skip m K); [exact Hin | lia].
Qed.

Lemma length_render_groups (h : nat -> list article -> list str) groups :
  (forall i g, length (h i g) = S (S (length g))) ->
  length (concat (imap h groups))
  = (2 * length groups + length (concat groups))%nat.
Proof.
  revert h. induction groups as [| g rest IH]; intros h Hh; [reflexivity |].
  rewrite imap_cons. cbn [concat]. rewrite !length_app, Hh.
  rewrite IH by (intros i g'; apply Hh). cbn [length]. lia.
Qed.

(** X10.  Cell 6 needs a label for every article but not a label in
    range.  Once [np.array] has made the array [X] and the fit has
    returned a model, it finishes and prints [K] groups; these hold exactly the
    articles whose label is one of [0 .. K-1], each once, and an article
    with any other label is printed nowhere.  The output has two lines
    per cluster (header and blank line) and one per article printed. *)
Theorem kmeans_cell_leaves_out_other_labels (K : nat) (s : state World) X m w :
  Forall (fun a => is_Some (label_of predict m a)) (articles s) ->
  np_array (omap embedding (articles s)) = Ok X ->
  KMeans_fit (Z.of_nat K) 0 10 X (world s) = (Ok m, w) ->
  let groups := clusters predict m K (articles s) in
  let printable := filter (fun a => in_range predict m K a = true) (articles s) in
  kmeans_cell KMeans_fit predict K s
  = (Ok tt,
     {| world := w; articles := articles s;
        stdout := stdout s ++ render_clusters groups;
        calls := calls s ++ [FitCall (Z.of_nat K) 0 10 X] |})
  /\ concat groups ≡ₚ printable
  /\ length (render_clusters groups) = (2 * K + length printable)%nat.
Proof.
  intros Hlab Harr Hfit groups printable.
  assert (Hperm : concat groups ≡ₚ printable) by apply concat_clusters_in_range.
  split; [| split; [exact Hperm |]].
  - unfold kmeans_cell, bind, get_articles.
    rewrite mapM_embeddings.
    2:{ eapply Forall_impl; [exact Hlab |]. intros a. apply label_of_embedding. }
    unfold lift. rewrite Harr.
    unfold external. rewrite Hfit.
    rewrite for_range_print_clusters by exact Hlab.
    unfold printed, groups. simpl. rewrite render_clusters_seq. reflexivity.
  - unfold render_clusters. rewrite length_render_groups.
    + rewrite (Permutation_length Hperm).
      unfold groups, clusters. rewrite length_fmap, length_seq. reflexivity.
    + intros i g. unfold render_cluster.
      rewrite !length_app, length_fmap. simpl. lia.
Qed.

End Groups.

(** ** Cell 9: printing and the missing key *)

Section PromptingMore.

Context {World : Type}.
Variable ChatCompletion_create : chat_request -> World -> result chat_completion * World.

(** X7.  One article without a summary is enough for cell 9 to raise
    [KeyError] before the request exists: no call is made, nothing is
    printed, and the state is as it was. *)
Theorem cell9_missing_summary (s : state World) :
  Exists (fun a => summary a = None) (articles s) ->
  cell9 ChatCompletion_create s = (Raise (KeyError "summary"), s).
Proof.
  intros Hex. unfold cell9, bind, get_articles.
  rewrite mapM_entry_of_missing by exact Hex. reflexivity.
Qed.

(** X11.  Cell 9 prints once or not at all.  When it finishes, the one
    line added to the output is the value it yields; when it raises,
    the output is as before.  It never makes more than one call. *)
Theorem cell9_prints_what_it_yields (s : state World) :
  let r := cell9 ChatCompletion_create s in
  match r.1 with
  | Ok out => stdout r.2 = stdout s ++ [out]
  | Raise _ => stdout r.2 = stdout s
  end
  /\ exists made, calls r.2 = calls s ++ made /\ (length made <= 1)%nat.
Proof.
  cbn zeta.
  destruct (summaries_present_or_missing (articles s)) as [[smrs Hs] | Hmiss].
  - rewrite (cell9_run ChatCompletion_create s smrs Hs).
    destruct (ChatCompletion_create _ _) as [[completion | e] w].
    + destruct (choices completion !! 0%nat) as [ch |]; simpl;
        (split; [reflexivity | eexists [_]; split; [reflexivity | simpl; lia]]).
    + simpl. split; [reflexivity | eexists [_]; split; [reflexivity | simpl; lia]].
  - unfold cell9, bind, get_articles.
    rewrite mapM_entry_of_missing by exact Hmiss. simpl.
    split; [reflexivity |]. exists []. rewrite app_nil_r. split; [reflexivity | simpl; lia].
Qed.

End PromptingMore.

(** ** From the loops to the later cells *)

Section Pipeline.

Context {World kmeans : Type}.
Variable Embedding_create : embedding_request -> World -> result embedding_response * World.
Variable ChatCompletion_create : chat_request -> World -> result chat_completion * World.
Variable KMeans_fit : Z -> Z -> Z -> list (list float) -> World -> result kmeans * World.
Variable predict : kmeans -> list (list float) -> result (list Z).

Lemma Forall2_right {A B} (Q : B -> Prop) (l : list A) (k : list B) :
  Forall2 (fun _ y => Q y) l k -> Forall Q k.
Proof. induction 1; constructor; assumption. Qed.

(** X12.  Once cells 4 and 5 have both finished, every article has an
    embedding and a summary and still its title and text, so neither
    later cell can stop at a missing key.  Cell 6 gets one row per
    article: it calls the fit when the rows all have the same length and
    stops at [np.array] otherwise.  Cell 9 reaches its request. *)
Theorem finished_loops_feed_later_cells (K : nat) (s s1 s2 : state World) :
  cell4 Embedding_create s = (Ok tt, s1) ->
  cell5 ChatCompletion_create s1 = (Ok tt, s2) ->
  Forall2 (fun a a' => same_document a a'
                       /\ is_Some (embedding a') /\ is_Some (summary a'))
          (articles s) (articles s2)
  /\ (exists rows,
        length rows = length (articles s)
        /\ (same_length rows ->
            calls (kmeans_cell KMeans_fit predict K s2).2
            = calls s2 ++ [FitCall (Z.of_nat K) 0 10 rows])
        /\ (~ same_length rows ->
            kmeans_cell KMeans_fit predict K s2
            = (Raise (External (lit "ValueError")), s2)))
  /\ (exists req,
        calls (cell9 ChatCompletion_create s2).2 = calls s2 ++ [ChatCall req]).
Proof.
  intros H4 H5.
  rewrite cell4_loop in H4. rewrite cell5_loop in H5.
  apply (annotate_loop_ok (embedding_of Embedding_create) set_embedding
           (fun a => EmbeddingCall (embedding_request_of a)) (fun _ _ => True)
           (embedding_of_calls Embedding_create) (fun _ _ _ _ _ => I))
    in H4 as [(l1 & Hl1 & Hall1) _].
  apply (annotate_loop_ok (summary_of ChatCompletion_create) set_summary
           (fun a => ChatCall (summary_request_of a)) (fun _ _ => True)
           (summary_of_calls ChatCompletion_create) (fun _ _ _ _ _ => I))
    in H5 as [(l2 & Hl2 & Hall2) _].
  simpl in Hl1, Hl2. rewrite Hl1 in Hall2.
  assert (Hboth : Forall2 (fun a a' => same_document a a'
                             /\ is_Some (embedding a') /\ is_Some (summary a'))
                    (articles s) (articles s2)).
  { rewrite Hl2. eapply Forall2_trans; [| exact Hall1 | exact Hall2].
    intros a a1 a2 (v1 & _ & ->) (v2 & _ & ->). simpl.
    split; [split; reflexivity |]. split; eexists; reflexivity. }
  assert (Hemb : Forall (fun a => is_Some (embedding a)) (articles s2)).
  { apply (Forall2_right _ (articles s)).
    eapply Forall2_impl; [exact Hboth |]. intros a a' (_ & He & _). exact He. }
  assert (Hsum : Forall (fun a => is_Some (summary a)) (articles s2)).
  { apply (Forall2_right _ (articles s)).
    eapply Forall2_impl; [exact Hboth |]. intros a a' (_ & _ & Hs). exact Hs. }
  split; [exact Hboth |]. split.
  - exists (omap embedding (articles s2)). split.
    + rewrite length_omap_embedding by exact Hemb.
      symmetry. eapply Forall2_length. exact Hboth.
    + split.
      * intros Hsame. apply kmeans_cell_calls; [exact Hemb |].
        apply np_array_same_length. exact Hsame.
      * intros Hrag. apply kmeans_cell_no_array; [exact Hemb |].
        apply np_array_ragged. exact Hrag.
  - destruct (summaries_present_or_missing (articles s2)) as [[smrs Hs] | Hmiss].
    + eexists. rewrite (cell9_run ChatCompletion_create s2 smrs Hs).
      destruct (ChatCompletion_create _ _) as [[completion | e] w]; [| reflexivity].
      destruct (choices completion !! 0%nat); reflexivity.
    + exfalso. apply Exists_exists in Hmiss as (a & Ha & Hnone).
      pose proof (proj1 (Forall_forall _ _) Hsum a Ha) as [x Hx]. congruence.
Qed.

End Pipeline.

(** ** The prompt of cell 9 *)

Lemma join_app sep (l1 l2 : list str) :
  l1 <> [] -> l2 <> [] ->
  join sep (l1 ++ l2) = join sep l1 ++ sep ++ join sep l2.
Proof.
  intros H1 H2. induction l1 as [| p [| q r] IH].
  - congruence.
  - destruct l2 as [| x l2]; [congruence |]. reflexivity.
  - change (join sep ((p :: q :: r) ++ l2))
      with (p ++ sep ++ join sep ((q :: r) ++ l2)).
    rewrite IH by discriminate.
    change (join sep (p :: q :: r)) with (p ++ sep ++ join sep (q :: r)).
    rewrite <- !app_assoc. reflexivity.
Qed.

(** X13.  Entries are only ever added at the end of the prompt: the user
    message for a list of entries is a prefix of the user message for
    that list followed by more entries. *)
Theorem prompt_grows_at_the_end (entries more : list str) :
  exists u1 u2,
    messages (clustering_request_of entries) !! 1%nat
    = Some {| role := lit "user"; content := u1 |}
    /\ messages (clustering_request_of (entries ++ more)) !! 1%nat
       = Some {| role := lit "user"; content := u2 |}
    /\ u1 `prefix_of` u2.
Proof.
  eexists _, _. split; [reflexivity |]. split; [reflexivity |].
  apply prefix_app.
  destruct entries as [| e es]; [apply prefix_nil |].
  destruct more as [| x xs]; [rewrite app_nil_r; reflexivity |].
  rewrite join_app by discriminate. apply prefix_app_r. reflexivity.
Qed.

(** ** Concrete runs of the further properties *)

(** Cell 4 with an endpoint that always answers. *)
Lemma cell4_finished_witness :
  let ra := Sample.raw "Doc A" "Alpha is a letter." in
  let rb := Sample.raw "Doc B" "Beta is a letter." in
  let s := Sample.initial [ra; rb] in
  let s' := {| world := 2%nat;
               articles := [set_embedding [1%float] ra; set_embedding [1%float] rb];
               stdout := [];
               calls := [EmbeddingCall (embedding_request_of ra);
                         EmbeddingCall (embedding_request_of rb)] |} in
  cell4 Sample.embed_ok s = (Ok tt, s')
  /\ Forall2 (fun a a' =>
                exists w w' response d,
                  Sample.embed_ok (embedding_request_of a) w = (Ok response, w')
                  /\ data response !! 0%nat = Some d
                  /\ a' = {| title := title a; text := text a;
                             embedding := Some (datum_embedding d);
                             summary := summary a |})
             (articles s) (articles s')
  /\ calls s' = calls s ++ ((fun a => EmbeddingCall (embedding_request_of a)) <$> articles s).
Proof.
  intros ra rb s s'. split; [reflexivity |].
  apply (cell4_finished Sample.embed_ok s s'). reflexivity.
Defined.

(** Cell 5 with an endpoint that always answers. *)
Lemma cell5_finished_witness :
  let ra := Sample.raw "Doc A" "Alpha is a letter." in
  let rb := Sample.raw "Doc B" "Beta is a letter." in
  let chat := Sample.chat_says (lit "Summary.") in
  let s := Sample.initial [ra; rb] in
  let s' := {| world := 2%nat;
               articles := [set_summary (lit "Summary.") ra; set_summary (lit "Summary.") rb];
               stdout := [];
               calls := [ChatCall (summary_request_of ra);
                         ChatCall (summary_request_of rb)] |} in
  cell5 chat s = (Ok tt, s')
  /\ Forall2 (fun a a' =>
                exists w w' completion ch,
                  chat (summary_request_of a) w = (Ok completion, w')
                  /\ choices completion !! 0%nat = Some ch
                  /\ a' = {| title := title a; text := text a;
                             embedding := embedding a;
                             summary := Some (content (message ch)) |})
             (articles s) (articles s')
  /\ calls s' = calls s ++ ((fun a => ChatCall (summary_request_of a)) <$> articles s).
Proof.
  intros ra rb chat s s'. split; [reflexivity |].
  apply (cell5_finished chat s s'). reflexivity.
Defined.

(** Both loops with endpoints that answer with nothing. *)
Lemma empty_response_halts_batch_witness :
  let ra := Sample.raw "Doc A" "Alpha is a letter." in
  let rb := Sample.raw "Doc B" "Beta is a letter." in
  let s := Sample.initial [ra; rb] in
  articles s = [] ++ ra :: [rb]
  /\ cell4 Sample.embed_empty s
     = (Raise IndexError,
        {| world := 1%nat; articles := [ra; rb]; stdout := [];
           calls := [EmbeddingCall (embedding_request_of ra)] |})
  /\ cell5 Sample.chat_empty s
     = (Raise IndexError,
        {| world := 1%nat; articles := [ra; rb]; stdout := [];
           calls := [ChatCall (summary_request_of ra)] |}).
Proof.
  intros ra rb s. split; [reflexivity |].
  destruct (empty_response_halts_batch Sample.embed_empty Sample.chat_empty
              s [] ra [rb] eq_refl) as [H4 H5].
  split.
  - exact (H4 (with_articles [] s) 1%nat eq_refl eq_refl).
  - exact (H5 (with_articles [] s) 1%nat eq_refl eq_refl).
Defined.

(** Cell 6 with an article that has no embedding. *)
Lemma kmeans_cell_missing_embedding_witness :
  let s := Sample.initial [Sample.doc_a; Sample.raw "Doc B" "Beta is a letter."] in
  Exists (fun a => embedding a = None) (articles s)
  /\ kmeans_cell Sample.threshold_fit Sample.threshold_predict 7 s
     = (Raise (KeyError "embedding"), s).
Proof.
  intros s.
  assert (Hex : Exists (fun a => embedding a = None) (articles s)).
  { apply Exists_cons_tl, Exists_cons_hd. reflexivity. }
  split; [exact Hex |].
  apply (kmeans_cell_missing_embedding Sample.threshold_fit Sample.threshold_predict 7 s Hex).
Defined.

(** Cell 9 with an article that has no summary. *)
Lemma cell9_missing_summary_witness :
  let s := Sample.initial [Sample.doc_a; Sample.raw "Doc B" "Beta is a letter."] in
  Exists (fun a => summary a = None) (articles s)
  /\ cell9 (Sample.chat_says Sample.response) s = (Raise (KeyError "summary"), s).
Proof.
  intros s.
  assert (Hex : Exists (fun a => summary a = None) (articles s)).
  { apply Exists_cons_tl, Exists_cons_hd. reflexivity. }
  split; [exact Hex |].
  apply (cell9_missing_summary (Sample.chat_says Sample.response) s Hex).
Defined.

Lemma sample_docs_have_embeddings :
  Forall (fun a => is_Some (embedding a)) [Sample.doc_a; Sample.doc_b; Sample.doc_c].
Proof. repeat constructor; eexists; reflexivity. Defined.

Lemma sample_rows_same_length :
  same_length (omap embedding [Sample.doc_a; Sample.doc_b; Sample.doc_c]).
Proof.
  intros r r' Hr Hr'.
  repeat (apply elem_of_cons in Hr as [-> | Hr]);
    try (apply elem_of_nil in Hr as []);
    repeat (apply elem_of_cons in Hr' as [-> | Hr']);
    try (apply elem_of_nil in Hr' as []); reflexivity.
Defined.

Lemma sample_rows_ragged :
  ~ same_length (omap embedding [Sample.doc_a; Sample.doc_short]).
Proof.
  intros Hsame.
  assert (Hlen : length [0.25%float; 1%float] = length [1%float]).
  { apply Hsame.
    - apply elem_of_cons. left. reflexivity.
    - apply elem_of_cons. right. apply elem_of_cons. left. reflexivity. }
  discriminate Hlen.
Defined.


(** Cell 6 with embeddings of different lengths, and with an estimator
    that rejects its input. *)
Lemma kmeans_cell_fit_failure_witness :
  let s := Sample.initial [Sample.doc_a; Sample.doc_b; Sample.doc_c] in
  let s' := Sample.initial [Sample.doc_a; Sample.doc_short] in
  let X := [[0.25%float; 1%float]; [0.5%float; 1%float]; [4%float; 2%float]] in
  Forall (fun a => is_Some (embedding a)) (articles s)
  /\ Forall (fun a => is_Some (embedding a)) (articles s')
  /\ ~ same_length (omap embedding (articles s'))
  /\ kmeans_cell Sample.threshold_fit Sample.threshold_predict 7 s'
     = (Raise (External (lit "ValueError")), s')
  /\ same_length (omap embedding (articles s))
  /\ Sample.fit_fails 7 0 10 X (world s) = (Raise (External (lit "ValueError")), 1%nat)
  /\ kmeans_cell Sample.fit_fails Sample.threshold_predict 7 s
     = (Raise (External (lit "ValueError")),
        {| world := 1%nat; articles := articles s; stdout := [];
           calls := [FitCall 7 0 10 X] |}).
Proof.
  intros s s' X.
  assert (Hemb' : Forall (fun a => is_Some (embedding a)) (articles s')).
  { repeat constructor; eexists; reflexivity. }
  split; [exact sample_docs_have_embeddings |]. split; [exact Hemb' |].
  split; [exact sample_rows_ragged |].
  split.
  - exact (proj1 (kmeans_cell_fit_failure Sample.threshold_fit Sample.threshold_predict
                    7 s' Hemb') sample_rows_ragged).
  - split; [exact sample_rows_same_length |]. split; [reflexivity |].
    exact (proj2 (kmeans_cell_fit_failure Sample.fit_fails Sample.threshold_predict
                    7 s sample_docs_have_embeddings)
                 (External (lit "ValueError")) 1%nat sample_rows_same_length eq_refl).
Defined.

(** Cell 6 with one cluster and a document labelled 1: it is left out. *)
Lemma kmeans_cell_leaves_out_other_labels_witness :
  let s := Sample.initial [Sample.doc_a; Sample.doc_b; Sample.doc_c] in
  let groups := clusters Sample.threshold_predict 2%float 1 (articles s) in
  let printable := filter (fun a => in_range Sample.threshold_predict 2%float 1 a = true)
                          (articles s) in
  Forall (fun a => is_Some (label_of Sample.threshold_predict 2%float a)) (articles s)
  /\ np_array (omap embedding (articles s)) = Ok (omap embedding (articles s))
  /\ label_of Sample.threshold_predict 2%float Sample.doc_c = Some 1
  /\ groups = [[Sample.doc_a; Sample.doc_b]]
  /\ kmeans_cell Sample.threshold_fit Sample.threshold_predict 1 s
     = (Ok tt,
        {| world := 1%nat; articles := articles s;
           stdout := stdout s ++ render_clusters groups;
           calls := calls s ++ [FitCall (Z.of_nat 1) 0 10 (omap embedding (articles s))] |})
  /\ concat groups ≡ₚ printable
  /\ length (render_clusters groups) = (2 * 1 + length printable)%nat.
Proof.
  intros s groups printable.
  assert (Hlab : Forall (fun a => is_Some (label_of Sample.threshold_predict 2%float a))
                        (articles s)).
  { repeat constructor; eexists; reflexivity. }
  split; [exact Hlab |]. split; [reflexivity |].
  split; [reflexivity |]. split; [reflexivity |].
  apply (kmeans_cell_leaves_out_other_labels Sample.threshold_fit Sample.threshold_predict
           1 s (omap embedding (articles s)) 2%float 1%nat Hlab).
  - reflexivity.
  - reflexivity.
Defined.

(** Cells 4 and 5 on two fresh documents, then cells 6 and 9. *)
Lemma finished_loops_feed_later_cells_witness :
  let ra := Sample.raw "Doc A" "Alpha is a letter." in
  let rb := Sample.raw "Doc B" "Beta is a letter." in
  let chat := Sample.chat_says (lit "Summary.") in
  let s := Sample.initial [ra; rb] in
  let s1 := (cell4 Sample.embed_ok s).2 in
  let s2 := (cell5 chat s1).2 in
  cell4 Sample.embed_ok s = (Ok tt, s1)
  /\ cell5 chat s1 = (Ok tt, s2)
  /\ Forall2 (fun a a' => same_document a a'
                          /\ is_Some (embedding a') /\ is_Some (summary a'))
             (articles s) (articles s2)
  /\ (exists rows,
        length rows = length (articles s)
        /\ (same_length rows ->
            calls (kmeans_cell Sample.threshold_fit Sample.threshold_predict 2 s2).2
            = calls s2 ++ [FitCall (Z.of_nat 2) 0 10 rows])
        /\ (~ same_length rows ->
            kmeans_cell Sample.threshold_fit Sample.threshold_predict 2 s2
            = (Raise (External (lit "ValueError")), s2)))
  /\ (exists req, calls (cell9 chat s2).2 = calls s2 ++ [ChatCall req]).
Proof.
  intros ra rb chat s s1 s2. split; [reflexivity |]. split; [reflexivity |].
  apply (finished_loops_feed_later_cells Sample.embed_ok chat
           Sample.threshold_fit Sample.threshold_predict 2 s s1 s2); reflexivity.
Defined.

(** Rows of different lengths stop cell 6 at [np.array], before the fit. *)
Example cell6_ragged_embeddings :
  cell6 Sample.threshold_fit Sample.threshold_predict
        (Sample.initial [Sample.doc_a; Sample.doc_short])
  = (Raise (External (lit "ValueError")),
     Sample.initial [Sample.doc_a; Sample.doc_short]).
Proof. reflexivity. Qed.
